(** * A shallow embedding of the Cloud CAS adapter (package [cloudcas])

    The Go source is [pki.go]; the second half of that file is the package
    [cloudcas], the adapter between the backend-agnostic CAS contract and
    the remote certificate-authority service.  Go strings are byte strings
    ([string], one [ascii] per byte), Go [int]s and runes are [Z], pointers
    that may be [nil] are [option]s, and a function returning [(T, error)]
    returns an [Outcome T], which also records a run-time panic. *)

From Stdlib Require Import ZArith Ascii String List Lia Bool.
From stdpp Require Import base option list gmap strings pretty.

Open Scope string_scope.
Open Scope list_scope.
Open Scope Z_scope.

(** ** Errors and outcomes *)

(** Error values as [github.com/pkg/errors] builds them: [errors.New],
    [errors.Errorf] with one [%d] argument, and [errors.Wrap], which keeps
    the cause. *)
Inductive error : Type :=
| errors_New (msg : string)
| errors_Errorf (format : string) (arg : Z)
| errors_Wrap (cause : error) (msg : string).

(** What a call does: it returns a value, returns a non-nil [error], or
    panics (a Go run-time error such as a slice bound out of range). *)
Inductive Outcome (A : Type) : Type :=
| Ok (a : A)
| Err (e : error)
| Panic (msg : string).
Arguments Ok {A} a.
Arguments Err {A} e.
Arguments Panic {A} msg.

#[global] Instance Outcome_ret : MRet Outcome := fun _ a => Ok a.
#[global] Instance Outcome_bind : MBind Outcome := fun _ _ f m =>
  match m with
  | Ok a => f a
  | Err e => Err e
  | Panic msg => Panic msg
  end.
#[global] Instance Outcome_fmap : FMap Outcome := fun _ _ f m =>
  match m with
  | Ok a => Ok (f a)
  | Err e => Err e
  | Panic msg => Panic msg
  end.

(** [if err != nil { return nil, errors.Wrap(err, msg) }] *)
Definition wrapErr {A} (msg : string) (m : Outcome A) : Outcome A :=
  match m with
  | Err e => Err (errors_Wrap e msg)
  | _ => m
  end.

Definition isOk {A} (m : Outcome A) : bool :=
  match m with Ok _ => true | _ => false end.

(** ** Go strings: bytes, runes and UTF-8 *)

Definition byte_of (c : ascii) : Z := Z.of_N (N_of_ascii c).
Definition ascii_of_byte (b : Z) : ascii := ascii_of_N (Z.to_N b).

Module utf8.
(** Package [unicode/utf8] of the Go standard library. *)
Definition RuneError : Z := 0xFFFD.
Definition MaxRune : Z := 0x10FFFF.
Definition locb : Z := 0x80.
Definition hicb : Z := 0xBF.
Definition maskx : Z := 0x3F.
Definition mask2 : Z := 0x1F.
Definition mask3 : Z := 0x0F.
Definition mask4 : Z := 0x07.

(** The table [first]: what the first byte of a sequence announces. *)
Inductive firstInfo : Type :=
| as_                          (* ASCII, size 1 *)
| xx                           (* invalid, size 1 *)
| multi (sz : nat) (lo hi : Z) (* size and accepted range of the second byte *).

Definition first (b : Z) : firstInfo :=
  if b <? 0x80 then as_
  else if b <? 0xC2 then xx
  else if b <? 0xE0 then multi 2 locb hicb
  else if b =? 0xE0 then multi 3 0xA0 hicb
  else if b <? 0xED then multi 3 locb hicb
  else if b =? 0xED then multi 3 locb 0x9F
  else if b <? 0xF0 then multi 3 locb hicb
  else if b =? 0xF0 then multi 4 0x90 hicb
  else if b <? 0xF4 then multi 4 locb hicb
  else if b =? 0xF4 then multi 4 locb 0x8F
  else xx.

Definition cont (b : Z) : bool := (locb <=? b) && (b <=? hicb).

(** [utf8.DecodeRuneInString]: the first rune of [s] and its width in
    bytes; [(RuneError, 1)] on an invalid or short sequence. *)
Definition DecodeRuneInString (s : string) : Z * nat :=
  match s with
  | EmptyString => (RuneError, 0%nat)
  | String c0 s1 =>
    let s0 := byte_of c0 in
    match first s0 with
    | as_ => (s0, 1%nat)
    | xx => (RuneError, 1%nat)
    | multi sz lo hi =>
      if (String.length s <? sz)%nat then (RuneError, 1%nat) else
      match s1 with
      | EmptyString => (RuneError, 1%nat)
      | String c1 s2 =>
        let b1 := byte_of c1 in
        if (b1 <? lo) || (hi <? b1) then (RuneError, 1%nat) else
        if (sz <=? 2)%nat then
          (Z.lor (Z.shiftl (Z.land s0 mask2) 6) (Z.land b1 maskx), 2%nat)
        else
        match s2 with
        | EmptyString => (RuneError, 1%nat)
        | String c2 s3 =>
          let b2 := byte_of c2 in
          if negb (cont b2) then (RuneError, 1%nat) else
          if (sz <=? 3)%nat then
            (Z.lor (Z.lor (Z.shiftl (Z.land s0 mask3) 12)
                          (Z.shiftl (Z.land b1 maskx) 6))
                   (Z.land b2 maskx), 3%nat)
          else
          match s3 with
          | EmptyString => (RuneError, 1%nat)
          | String c3 _ =>
            let b3 := byte_of c3 in
            if negb (cont b3) then (RuneError, 1%nat) else
            (Z.lor (Z.lor (Z.lor (Z.shiftl (Z.land s0 mask4) 18)
                                 (Z.shiftl (Z.land b1 maskx) 12))
                          (Z.shiftl (Z.land b2 maskx) 6))
                   (Z.land b3 maskx), 4%nat)
          end
        end
      end
    end
  end.

(** [utf8.AppendRune]: the UTF-8 encoding of a rune; runes out of range
    and surrogates are written as [RuneError]. *)
Definition bytes3 (r : Z) : string :=
  String (ascii_of_byte (Z.lor 0xE0 (Z.shiftr r 12)))
    (String (ascii_of_byte (Z.lor 0x80 (Z.land (Z.shiftr r 6) maskx)))
       (String (ascii_of_byte (Z.lor 0x80 (Z.land r maskx))) EmptyString)).

Definition EncodeRune (r : Z) : string :=
  if (0 <=? r) && (r <=? 0x7F) then String (ascii_of_byte r) EmptyString
  else if (0 <=? r) && (r <=? 0x7FF) then
    String (ascii_of_byte (Z.lor 0xC0 (Z.shiftr r 6)))
      (String (ascii_of_byte (Z.lor 0x80 (Z.land r maskx))) EmptyString)
  else if (r <? 0) || (MaxRune <? r) || ((0xD800 <=? r) && (r <=? 0xDFFF))
  then bytes3 RuneError
  else if r <=? 0xFFFF then bytes3 r
  else
    String (ascii_of_byte (Z.lor 0xF0 (Z.shiftr r 18)))
      (String (ascii_of_byte (Z.lor 0x80 (Z.land (Z.shiftr r 12) maskx)))
         (String (ascii_of_byte (Z.lor 0x80 (Z.land (Z.shiftr r 6) maskx)))
            (String (ascii_of_byte (Z.lor 0x80 (Z.land r maskx))) EmptyString))).
End utf8.

(** [s[n:]] on a string, for [n <= len(s)]. *)
Fixpoint string_drop (n : nat) (s : string) : string :=
  match n, s with
  | O, _ => s
  | S n', String _ s' => string_drop n' s'
  | S _, EmptyString => EmptyString
  end.

(** The runes [for _, c := range s] yields.  Every step consumes at least
    one byte, so [String.length s] steps are enough. *)
Fixpoint runes_fuel (fuel : nat) (s : string) : list Z :=
  match fuel with
  | O => []
  | S fuel' =>
    match s with
    | EmptyString => []
    | String _ _ =>
      let '(r, width) := utf8.DecodeRuneInString s in
      r :: runes_fuel fuel' (string_drop width s)
    end
  end.

Definition runes (s : string) : list Z := runes_fuel (String.length s) s.

(** [strings.Map]: a copy of [s] with every rune replaced by its image;
    a negative image drops the rune. *)
Definition strings_Map (mapping : Z -> Z) (s : string) : string :=
  foldr String.app ""
    (map (fun c => let r := mapping c in
                   if r <? 0 then "" else utf8.EncodeRune r)
         (runes s)).

Definition rune (c : string) : Z :=
  match c with
  | String a _ => byte_of a
  | EmptyString => 0
  end.

(** ** [normalizeCertificateAuthorityName] *)

(** The function literal handed to [strings.Map]. *)
Definition normalizeRune (r : Z) : Z :=
  if (rune "a" <=? r) && (r <=? rune "z") then r
  else if (rune "A" <=? r) && (r <=? rune "Z") then r
  else if (rune "0" <=? r) && (r <=? rune "9") then r
  else if r =? rune "-" then r
  else if r =? rune "_" then r
  else rune "-".

Definition normalizeCertificateAuthorityName (name : string) : string :=
  strings_Map normalizeRune name.

(** The permitted character set [A-Za-z0-9_-], as the specification
    writes it. *)
Definition permitted (r : Z) : Prop :=
  65 <= r <= 90 \/ 97 <= r <= 122 \/ 48 <= r <= 57 \/ r = 95 \/ r = 45.

(** ** Regular expressions and [strings.Split] *)

Module regexp.
(** The fragment of package [regexp] the adapter uses: literals, a
    negated one-character class, [+], and the text anchors. *)
Inductive syntax : Type :=
| NoMatch
| EmptyMatch
| Literal (c : ascii)
| NotLiteral (c : ascii)      (* [^c] *)
| AnyChar
| Concat (r1 r2 : syntax)
| Alternate (r1 r2 : syntax)
| Star (r : syntax)
| Plus (r : syntax).

(** A compiled expression: its body, and whether it opens with [^] and
    closes with [$]. *)
Record Regexp : Type := { beginText : bool; endText : bool; body : syntax }.

(** The parser, for patterns of that fragment.  [acc] is what has been
    read, [last] the atom a following [+] applies to. *)
Definition seq (acc : syntax) (last : option syntax) : syntax :=
  match last with
  | Some a => Concat acc a
  | None => acc
  end.

Fixpoint parse (acc : syntax) (last : option syntax) (p : string)
  : option (syntax * bool) :=
  match p with
  | EmptyString => Some (seq acc last, false)
  | String "$" EmptyString => Some (seq acc last, true)
  | String "+" p' =>
    match last with
    | Some a => parse (Concat acc (Plus a)) None p'
    | None => None
    end
  | String "[" (String "^" (String c (String "]" p'))) =>
    parse (seq acc last) (Some (NotLiteral c)) p'
  | String "[" _ => None
  | String c p' => parse (seq acc last) (Some (Literal c)) p'
  end.

Definition Compile (p : string) : option Regexp :=
  match p with
  | String "^" p' =>
    '(r, e) ← parse EmptyMatch None p';
    Some {| beginText := true; endText := e; body := r |}
  | _ =>
    '(r, e) ← parse EmptyMatch None p;
    Some {| beginText := false; endText := e; body := r |}
  end.

(** [regexp.MustCompile] panics on a pattern that does not parse; the
    patterns of this package do parse. *)
Definition MustCompile (p : string) : Regexp :=
  default {| beginText := true; endText := true; body := NoMatch |}
          (Compile p).

(** What [parse] makes of a run of literal bytes after [r]. *)
Definition literals (r : syntax) (t : string) : syntax :=
  fold_left (fun acc c => Concat acc (Literal c)) (list_ascii_of_string t) r.

(** Matching by derivatives.  It is written on bytes; the patterns of
    this package name ASCII bytes only, and a negated class matches any
    other rune, valid or not, so it agrees with matching on runes. *)
Fixpoint nullable (r : syntax) : bool :=
  match r with
  | NoMatch | Literal _ | NotLiteral _ | AnyChar => false
  | EmptyMatch | Star _ => true
  | Concat r1 r2 => nullable r1 && nullable r2
  | Alternate r1 r2 => nullable r1 || nullable r2
  | Plus r1 => nullable r1
  end.

Fixpoint deriv (a : ascii) (r : syntax) : syntax :=
  match r with
  | NoMatch | EmptyMatch => NoMatch
  | Literal c => if Ascii.eqb a c then EmptyMatch else NoMatch
  | NotLiteral c => if Ascii.eqb a c then NoMatch else EmptyMatch
  | AnyChar => EmptyMatch
  | Concat r1 r2 =>
    if nullable r1
    then Alternate (Concat (deriv a r1) r2) (deriv a r2)
    else Concat (deriv a r1) r2
  | Alternate r1 r2 => Alternate (deriv a r1) (deriv a r2)
  | Star r1 => Concat (deriv a r1) (Star r1)
  | Plus r1 => Concat (deriv a r1) (Star r1)
  end.

Fixpoint fullMatch (r : syntax) (s : string) : bool :=
  match s with
  | EmptyString => nullable r
  | String a s' => fullMatch (deriv a r) s'
  end.

(** [Regexp.MatchString]: does [s] contain a match?  Without an
    anchor the match may start, or end, anywhere. *)
Definition MatchString (re : Regexp) (s : string) : bool :=
  let r1 := if beginText re then body re else Concat (Star AnyChar) (body re) in
  let r2 := if endText re then r1 else Concat r1 (Star AnyChar) in
  fullMatch r2 s.

(** The language of an expression, for stating what [MatchString]
    decides. *)
Inductive matches : syntax -> string -> Prop :=
| MEmpty : matches EmptyMatch ""
| MLiteral c : matches (Literal c) (String c "")
| MNotLiteral c a : a <> c -> matches (NotLiteral c) (String a "")
| MAnyChar a : matches AnyChar (String a "")
| MConcat r1 r2 s1 s2 :
    matches r1 s1 -> matches r2 s2 -> matches (Concat r1 r2) (s1 +:+ s2)
| MAlternateL r1 r2 s : matches r1 s -> matches (Alternate r1 r2) s
| MAlternateR r1 r2 s : matches r2 s -> matches (Alternate r1 r2) s
| MStarNil r : matches (Star r) ""
| MStarApp r s1 s2 :
    matches r s1 -> matches (Star r) s2 -> matches (Star r) (s1 +:+ s2)
| MPlus r s1 s2 :
    matches r s1 -> matches (Star r) s2 -> matches (Plus r) (s1 +:+ s2).
End regexp.

(** [strings.Split(s, sep)] for a separator of one byte: the substrings
    between the separators, [n+1] of them when [s] holds [n] separators. *)
Fixpoint strings_Split (s : string) (sep : ascii) : list string :=
  match s with
  | EmptyString => [""]
  | String c s' =>
    if Ascii.eqb c sep then "" :: strings_Split s' sep
    else match strings_Split s' sep with
         | p :: ps => String c p :: ps
         | [] => [String c ""]
         end
  end.

(** [strings.Contains(s, sep)] for a separator of one byte. *)
Fixpoint containsByte (sep : ascii) (s : string) : bool :=
  match s with
  | EmptyString => false
  | String c s' => Ascii.eqb c sep || containsByte sep s'
  end.

(** ** Data model *)

(** [pkix.Extension] and the part of [x509.Certificate] the adapter reads
    and writes. *)
Record Extension : Type := {
  Id : list Z;               (* asn1.ObjectIdentifier *)
  Critical : bool;
  Value : string
}.

Record Certificate : Type := {
  Raw : string;
  Subject_CommonName : string;
  Extensions : list Extension;
  ExtraExtensions : list Extension
}.

(** [apiv1.CertificateAuthorityExtension], the correlation tag. *)
Record CertificateAuthorityExtension : Type := {
  cae_Type : Z;
  CertificateID : string
}.

(** [apiv1.Options], the fields the constructor reads. *)
Record Options : Type := {
  CredentialsFile : string;
  CertificateAuthority : string;
  IsCreator : bool;
  Project : string;
  Location : string
}.

(** A pointer to an [x509.Certificate]: an index into the store of the
    [World] below. *)
Definition ptr : Type := nat.

Inductive CertificateAuthorityType : Type :=
| RootCA
| IntermediateCA
| otherCAType (code : Z).

Record CreateKeyRequest : Type := {
  SignatureAlgorithm : Z;
  Bits : Z
}.

Record GetCertificateAuthorityRequest : Type := {
  gca_Name : string
}.

Record GetCertificateAuthorityResponse : Type := {
  RootCertificate : Certificate
}.

Record CreateCertificateRequest : Type := {
  cc_Template : option ptr;
  cc_Lifetime : Z;             (* time.Duration *)
  cc_RequestID : string
}.

Record CreateCertificateResponse : Type := {
  cc_Certificate : Certificate;
  cc_CertificateChain : list Certificate
}.

Record RenewCertificateRequest : Type := {
  rn_Template : option ptr;
  rn_Lifetime : Z;
  rn_RequestID : string
}.

Record RenewCertificateResponse : Type := {
  rn_Certificate : Certificate;
  rn_CertificateChain : list Certificate
}.

Record RevokeCertificateRequest : Type := {
  rv_Certificate : option Certificate;
  rv_ReasonCode : Z;
  rv_RequestID : string
}.

Record RevokeCertificateResponse : Type := {
  rv_ResponseCertificate : Certificate;
  rv_CertificateChain : list Certificate
}.

Record CreateCertificateAuthorityResponse : Type := {
  ca_ResponseName : string;
  ca_Certificate : Certificate;
  ca_CertificateChain : list Certificate
}.

Record CreateCertificateAuthorityRequest : Type := {
  ca_Name : string;
  ca_Type : CertificateAuthorityType;
  ca_Template : option ptr;
  ca_Lifetime : Z;
  ca_Parent : option CreateCertificateAuthorityResponse;
  ca_RequestID : string;
  ca_CreateKey : option CreateKeyRequest
}.

(** *** Messages of the remote API (package [pb]) *)

Inductive RevocationReason : Type :=
| REVOCATION_REASON_UNSPECIFIED
| KEY_COMPROMISE
| CERTIFICATE_AUTHORITY_COMPROMISE
| AFFILIATION_CHANGED
| SUPERSEDED
| CESSATION_OF_OPERATION
| CERTIFICATE_HOLD
| PRIVILEGE_WITHDRAWN
| ATTRIBUTE_AUTHORITY_COMPROMISE.

Inductive CertificateAuthority_Type : Type :=
| TYPE_UNSPECIFIED
| SELF_SIGNED
| SUBORDINATE.

Inductive CertificateAuthority_Tier : Type :=
| TIER_UNSPECIFIED
| ENTERPRISE
| DEVOPS.

(** What the helpers of this package that are not in [pki.go] produce, and
    the libraries the adapter calls.  The adapter only moves these values
    around, so their types stay abstract. *)
Class Externals : Type := {
  pb_Subject : Type;
  pb_ReusableConfigWrapper : Type;
  pb_CertificateConfig : Type;
  pb_KeyVersionSpec : Type;
  (* encoding/pem, crypto/x509, encoding/asn1, github.com/google/uuid *)
  pem_Decode : string -> option string;
  x509_ParseCertificate : string -> Outcome Certificate;
  asn1_Marshal : CertificateAuthorityExtension -> Outcome string;
  asn1_Unmarshal : string -> Outcome CertificateAuthorityExtension;
  uuid_NewRandomFromReader : nat -> Outcome string;
  (* package cloudcas, file certificate.go *)
  createCertificateConfig : Certificate -> Outcome pb_CertificateConfig;
  createSubject : Certificate -> pb_Subject;
  createReusableConfig : Certificate -> pb_ReusableConfigWrapper;
  createKeyVersionSpec : Z -> Z -> Outcome pb_KeyVersionSpec;
  (* package apiv1 *)
  oidStepCertificateAuthority : list Z;
  apiv1_CloudCAS : Z
}.

Section Messages.
Context `{Externals}.

(** The [oneof] field [certificate_config] of [pb.Certificate]. *)
Inductive isCertificate_CertificateConfig : Type :=
| Certificate_PemCsr (PemCsr : string)
| Certificate_Config (Config : pb_CertificateConfig).

Record pb_Certificate : Type := {
  CertificateConfig : option isCertificate_CertificateConfig;
  pbc_Lifetime : option Z;
  pbc_Labels : gmap string string;
  PemCertificate : string;
  PemCertificateChain : list string
}.

Record pb_SubjectConfig : Type := {
  Subject : pb_Subject;
  CommonName : string
}.

Record pb_CertificateConfig_ : Type := {
  SubjectConfig : pb_SubjectConfig;
  ReusableConfig : pb_ReusableConfigWrapper
}.

Record pb_IssuingOptions : Type := {
  IncludeCaCertUrl : bool;
  IncludeCrlAccessUrl : bool
}.

Record pb_CertificateAuthority : Type := {
  pba_Name : string;
  pba_Type : CertificateAuthority_Type;
  Tier : CertificateAuthority_Tier;
  Config : option pb_CertificateConfig_;
  pba_Lifetime : option Z;
  KeySpec : option pb_KeyVersionSpec;
  IssuingOptions : option pb_IssuingOptions;
  pba_Labels : gmap string string;
  PemCaCertificates : list string
}.

Record pb_CreateCertificateRequest : Type := {
  ccr_Parent : string;
  ccr_CertificateId : string;
  ccr_Certificate : pb_Certificate;
  ccr_RequestId : string
}.

Record pb_RevokeCertificateRequest : Type := {
  rcr_Name : string;
  rcr_Reason : RevocationReason;
  rcr_RequestId : string
}.

Record pb_GetCertificateAuthorityRequest : Type := {
  gcar_Name : string
}.

Record pb_CreateCertificateAuthorityRequest : Type := {
  ccar_Parent : string;
  ccar_CertificateAuthorityId : string;
  ccar_CertificateAuthority : pb_CertificateAuthority;
  ccar_RequestId : string
}.

Record pb_FetchCertificateAuthorityCsrRequest : Type := {
  fcr_Name : string
}.

Record pb_FetchCertificateAuthorityCsrResponse : Type := {
  fcr_PemCsr : string
}.

Record pb_ActivateCertificateAuthorityRequest : Type := {
  acr_Name : string;
  acr_PemCaCertificate : string;
  acr_PemIssuerChain : list string;
  acr_RequestId : string
}.

(** What reaches the remote service: a call of a client method, or a
    [Wait] on a long-running operation, each under the deadline of its
    context. *)
Inductive Event : Type :=
| CallCreateCertificate (timeout : Z) (req : pb_CreateCertificateRequest)
| CallRevokeCertificate (timeout : Z) (req : pb_RevokeCertificateRequest)
| CallGetCertificateAuthority (timeout : Z) (req : pb_GetCertificateAuthorityRequest)
| CallCreateCertificateAuthority (timeout : Z) (req : pb_CreateCertificateAuthorityRequest)
| CallFetchCertificateAuthorityCsr (timeout : Z) (req : pb_FetchCertificateAuthorityCsrRequest)
| CallActivateCertificateAuthority (timeout : Z) (req : pb_ActivateCertificateAuthorityRequest)
| OperationWait (timeout : Z).

(** A long-running operation handle ([privateca.*Operation]): what its
    [Wait] returns under a context with the given timeout. *)
Record Operation : Type := {
  Wait : Z -> Outcome pb_CertificateAuthority
}.

(** The interface [CertificateAuthorityClient].  An implementation
    answers a request knowing what the service has received so far. *)
Record CertificateAuthorityClient : Type := {
  client_CreateCertificate :
    list Event -> pb_CreateCertificateRequest -> Outcome pb_Certificate;
  client_RevokeCertificate :
    list Event -> pb_RevokeCertificateRequest -> Outcome pb_Certificate;
  client_GetCertificateAuthority :
    list Event -> pb_GetCertificateAuthorityRequest -> Outcome pb_CertificateAuthority;
  client_CreateCertificateAuthority :
    list Event -> pb_CreateCertificateAuthorityRequest -> Outcome Operation;
  client_FetchCertificateAuthorityCsr :
    list Event -> pb_FetchCertificateAuthorityCsrRequest
    -> Outcome pb_FetchCertificateAuthorityCsrResponse;
  client_ActivateCertificateAuthority :
    list Event -> pb_ActivateCertificateAuthorityRequest -> Outcome Operation
}.

(** The struct [CloudCAS]. *)
Record CloudCAS : Type := {
  client : CertificateAuthorityClient;
  certificateAuthority : string;
  project : string;
  location : string
}.

(** What a call can change: the requests the remote service has
    received, the number of identifiers drawn from [rand.Reader], and
    the certificates that pointers of the caller refer to. *)
Record World : Type := {
  trace : list Event;
  drawn : nat;
  heap : list Certificate
}.
End Messages.

(** ** The adapter *)

Section Adapter.
Context `{Externals}.

(** *** Calls that change the world *)

Definition M (A : Type) : Type := World -> Outcome A * World.

#[global] Instance M_ret : MRet M := fun _ a w => (Ok a, w).
#[global] Instance M_bind : MBind M := fun _ _ f m w =>
  match m w with
  | (Ok a, w') => f a w'
  | (Err e, w') => (Err e, w')
  | (Panic msg, w') => (Panic msg, w')
  end.

Definition lift {A} (o : Outcome A) : M A := fun w => (o, w).
Definition fail {A} (e : error) : M A := lift (Err e).

Definition wrapM {A} (msg : string) (m : M A) : M A := fun w =>
  let '(o, w') := m w in (wrapErr msg o, w').

(** One request to the remote service: the answer depends on what the
    service has seen, and the request joins the trace. *)
Definition remote {A} (ev : Event) (answer : list Event -> Outcome A) : M A :=
  fun w =>
    (answer (trace w),
     {| trace := trace w ++ [ev]; drawn := drawn w; heap := heap w |}).

(** Reading and updating through a pointer.  A pointer of a Go program
    is [nil] or valid; a pointer outside the store stands for the
    former. *)
Definition nilDereference : string :=
  "runtime error: invalid memory address or nil pointer dereference".

Definition load (p : ptr) : M Certificate := fun w =>
  match heap w !! p with
  | Some c => (Ok c, w)
  | None => (Panic nilDereference, w)
  end.

Definition modify (p : ptr) (f : Certificate -> Certificate) : M unit := fun w =>
  match heap w !! p with
  | Some c =>
    (Ok tt, {| trace := trace w; drawn := drawn w; heap := <[p := f c]> (heap w) |})
  | None => (Panic nilDereference, w)
  end.

(** [l[:hi]] and [l[i]] with Go's bounds checks. *)
Definition slice_to {A} (l : list A) (hi : Z) : Outcome (list A) :=
  if (hi <? 0) || (Z.of_nat (length l) <? hi)
  then Panic "runtime error: slice bounds out of range"
  else Ok (take (Z.to_nat hi) l).

Definition index {A} (l : list A) (i : Z) : Outcome A :=
  if i <? 0 then Panic "runtime error: index out of range"
  else match l !! Z.to_nat i with
       | Some a => Ok a
       | None => Panic "runtime error: index out of range"
       end.

Definition len {A} (l : list A) : Z := Z.of_nat (length l).

(** *** Contexts *)

Definition time_Second : Z := 1000000000.
Definition defaultContext : Z := 15 * time_Second.
Definition defaultInitiatorContext : Z := 60 * time_Second.

(** *** The correlation extension (package [apiv1]) *)

Definition isCAExtension (ext : Extension) : bool :=
  bool_decide (Id ext = oidStepCertificateAuthority).

(** Modelled from the spec: [apiv1.CreateCertificateAuthorityExtension]
    is not in [pki.go].  Section 4.2: the encoding of the backend tag
    and the certificate identifier is deterministic, and the extension
    carries the well-known object identifier. *)
Definition CreateCertificateAuthorityExtension (typ : Z) (certificateID : string)
  : Outcome Extension :=
  b ← asn1_Marshal {| cae_Type := typ; CertificateID := certificateID |};
  Ok {| Id := oidStepCertificateAuthority; Critical := false; Value := b |}.

(** Modelled from the spec: [apiv1.FindCertificateAuthorityExtension]
    is not in [pki.go].  Section 4.2: it scans the extension list of a
    certificate for the well-known object identifier. *)
Definition FindCertificateAuthorityExtension (cert : Certificate) : option Extension :=
  find isCAExtension (Extensions cert).

(** Modelled from the spec: [apiv1.RemoveCertificateAuthorityExtension]
    is not in [pki.go].  Section 9: the step is to "remove an existing
    correlation extension before adding a new one", a remove-if-present
    step; the call in [createCertificate] stands under the comment
    "Removes the CAS extension if it exists".  One extension is taken
    out: the first correlation extension of the template, when there is
    one; the extensions around it stay, in their order. *)
Fixpoint removeFirstCAExtension (exts : list Extension) : list Extension :=
  match exts with
  | [] => []
  | ext :: exts => if isCAExtension ext then exts else ext :: removeFirstCAExtension exts
  end.

Definition removeCAExtension (tpl : Certificate) : Certificate :=
  {| Raw := Raw tpl;
     Subject_CommonName := Subject_CommonName tpl;
     Extensions := Extensions tpl;
     ExtraExtensions := removeFirstCAExtension (ExtraExtensions tpl) |}.

Definition RemoveCertificateAuthorityExtension (tpl : ptr) : M unit :=
  modify tpl removeCAExtension.

(** [tpl.ExtraExtensions = append(tpl.ExtraExtensions, ext)] *)
Definition appendExtraExtension (ext : Extension) (tpl : Certificate) : Certificate :=
  {| Raw := Raw tpl;
     Subject_CommonName := Subject_CommonName tpl;
     Extensions := Extensions tpl;
     ExtraExtensions := ExtraExtensions tpl ++ [ext] |}.

(** How many correlation extensions a template carries. *)
Definition countCAExtensions (tpl : Certificate) : nat :=
  length (filter (fun ext => isCAExtension ext = true) (ExtraExtensions tpl)).

(** *** Helpers of [pki.go] *)

Definition createCertificateID : M string := fun w =>
  (wrapErr "error creating certificate id" (uuid_NewRandomFromReader (drawn w)),
   {| trace := trace w; drawn := S (drawn w); heap := heap w |}).

Definition parseCertificate (pemCert : string) : Outcome Certificate :=
  match pem_Decode pemCert with
  | None => Err (errors_New "error decoding certificate: not a valid PEM encoded block")
  | Some block => wrapErr "error parsing certificate" (x509_ParseCertificate block)
  end.

Definition getCertificateAndChain (certpb : pb_Certificate)
  : Outcome (Certificate * list Certificate) :=
  cert ← parseCertificate (PemCertificate certpb);
  pemChain ← slice_to (PemCertificateChain certpb)
                      (len (PemCertificateChain certpb) - 1);
  chain ← mapM parseCertificate pemChain;
  Ok (cert, chain).

(** [revocationCodeMap]: RFC 5280 reason codes to the reasons of the
    remote service. *)
Definition revocationCodeMap : gmap Z RevocationReason :=
  <[0 := REVOCATION_REASON_UNSPECIFIED]> (
  <[1 := KEY_COMPROMISE]> (
  <[2 := CERTIFICATE_AUTHORITY_COMPROMISE]> (
  <[3 := AFFILIATION_CHANGED]> (
  <[4 := SUPERSEDED]> (
  <[5 := CESSATION_OF_OPERATION]> (
  <[6 := CERTIFICATE_HOLD]> (
  <[9 := PRIVILEGE_WITHDRAWN]> (
  <[10 := ATTRIBUTE_AUTHORITY_COMPROMISE]> ∅)))))))).

(** *** The operations of [CloudCAS] *)

(** The request [createCertificate] submits. *)
Definition issueRequest (c : CloudCAS) (id : string) (certConfig : pb_CertificateConfig)
           (lifetime : Z) (requestID : string) : pb_CreateCertificateRequest :=
  {| ccr_Parent := certificateAuthority c;
     ccr_CertificateId := id;
     ccr_Certificate :=
       {| CertificateConfig := Some (Certificate_Config certConfig);
          pbc_Lifetime := Some lifetime;
          pbc_Labels := ∅;
          PemCertificate := "";
          PemCertificateChain := [] |};
     ccr_RequestId := requestID |}.

Definition createCertificate (c : CloudCAS) (tpl : ptr) (lifetime : Z)
           (requestID : string) : M (Certificate * list Certificate) :=
  (* Removes the CAS extension if it exists. *)
  _ ← RemoveCertificateAuthorityExtension tpl;
  (* Create new CAS extension with the certificate id. *)
  id ← createCertificateID;
  casExtension ← lift (CreateCertificateAuthorityExtension apiv1_CloudCAS id);
  _ ← modify tpl (appendExtraExtension casExtension);
  (* Create and submit certificate *)
  t ← load tpl;
  certConfig ← lift (createCertificateConfig t);
  let req := issueRequest c id certConfig lifetime requestID in
  cert ← wrapM "cloudCAS CreateCertificate failed"
         (remote (CallCreateCertificate defaultContext req)
                 (fun tr => client_CreateCertificate (client c) tr req));
  (* Return certificate and certificate chain *)
  lift (getCertificateAndChain cert).

(** (The [println] of the name on a failed call writes to the standard
    error stream, which the model leaves out.) *)
Definition GetCertificateAuthority (c : CloudCAS) (req : GetCertificateAuthorityRequest)
  : M GetCertificateAuthorityResponse :=
  let name := if bool_decide (gca_Name req = "")
              then certificateAuthority c else gca_Name req in
  let pbReq := {| gcar_Name := name |} in
  resp ← wrapM "cloudCAS GetCertificateAuthority failed"
         (remote (CallGetCertificateAuthority defaultContext pbReq)
                 (fun tr => client_GetCertificateAuthority (client c) tr pbReq));
  if len (PemCaCertificates resp) =? 0 then
    fail (errors_New "cloudCAS GetCertificateAuthority: PemCACertificate should not be empty")
  else
    (* Last certificate in the chain is the root. *)
    root ← lift (pemCert ← index (PemCaCertificates resp)
                                 (len (PemCaCertificates resp) - 1);
                 parseCertificate pemCert);
    mret {| RootCertificate := root |}.

Definition CreateCertificate (c : CloudCAS) (req : CreateCertificateRequest)
  : M CreateCertificateResponse :=
  match cc_Template req with
  | None => fail (errors_New "createCertificateRequest `template` cannot be nil")
  | Some tpl =>
    if cc_Lifetime req =? 0 then
      fail (errors_New "createCertificateRequest `lifetime` cannot be 0")
    else
      '(cert, chain) ← createCertificate c tpl (cc_Lifetime req) (cc_RequestID req);
      mret {| cc_Certificate := cert; cc_CertificateChain := chain |}
  end.

Definition RenewCertificate (c : CloudCAS) (req : RenewCertificateRequest)
  : M RenewCertificateResponse :=
  match rn_Template req with
  | None => fail (errors_New "renewCertificateRequest `template` cannot be nil")
  | Some tpl =>
    if rn_Lifetime req =? 0 then
      fail (errors_New "renewCertificateRequest `lifetime` cannot be 0")
    else
      '(cert, chain) ← createCertificate c tpl (rn_Lifetime req) (rn_RequestID req);
      mret {| rn_Certificate := cert; rn_CertificateChain := chain |}
  end.

(** The request [RevokeCertificate] submits: the certificate is
    addressed by the identifier of its correlation extension. *)
Definition revokeRequest (c : CloudCAS) (cae : CertificateAuthorityExtension)
           (reason : RevocationReason) (requestID : string) : pb_RevokeCertificateRequest :=
  {| rcr_Name := certificateAuthority c +:+ "/certificates/" +:+ CertificateID cae;
     rcr_Reason := reason;
     rcr_RequestId := requestID |}.

Definition RevokeCertificate (c : CloudCAS) (req : RevokeCertificateRequest)
  : M RevokeCertificateResponse :=
  match revocationCodeMap !! rv_ReasonCode req with
  | None =>
    fail (errors_Errorf "revokeCertificate 'reasonCode=%d' is invalid or not supported"
                        (rv_ReasonCode req))
  | Some reason =>
    match rv_Certificate req with
    | None => fail (errors_New "revokeCertificateRequest `certificate` cannot be nil")
    | Some certificate =>
      match FindCertificateAuthorityExtension certificate with
      | None =>
        fail (errors_New "error revoking certificate: certificate authority extension was not found")
      | Some ext =>
        cae ← lift (wrapErr "error unmarshaling certificate authority extension"
                            (asn1_Unmarshal (Value ext)));
        let pbReq := revokeRequest c cae reason (rv_RequestID req) in
        certpb ← wrapM "cloudCAS RevokeCertificate failed"
                 (remote (CallRevokeCertificate defaultContext pbReq)
                         (fun tr => client_RevokeCertificate (client c) tr pbReq));
        '(cert, chain) ← lift (getCertificateAndChain certpb);
        mret {| rv_ResponseCertificate := cert; rv_CertificateChain := chain |}
      end
    end
  end.

Definition isIntermediateCA (t : CertificateAuthorityType) : bool :=
  match t with IntermediateCA => true | _ => false end.

(** [req.Parent.Name] *)
Definition parentName (req : CreateCertificateAuthorityRequest) : M string :=
  match ca_Parent req with
  | Some parent => mret (ca_ResponseName parent)
  | None => lift (Panic nilDereference)
  end.

Definition signIntermediateCA (c : CloudCAS) (name : string)
           (req : CreateCertificateAuthorityRequest) : M pb_CertificateAuthority :=
  id ← createCertificateID;
  (* Fetch intermediate CSR *)
  let csrReq := {| fcr_Name := name |} in
  csr ← wrapM "cloudCAS FetchCertificateAuthorityCsr failed"
        (remote (CallFetchCertificateAuthorityCsr defaultInitiatorContext csrReq)
                (fun tr => client_FetchCertificateAuthorityCsr (client c) tr csrReq));
  (* Sign the CSR with the ca. *)
  parent ← parentName req;
  let signReq :=
    {| ccr_Parent := parent;
       ccr_CertificateId := id;
       ccr_Certificate :=
         {| CertificateConfig := Some (Certificate_PemCsr (fcr_PemCsr csr));
            pbc_Lifetime := Some (ca_Lifetime req);
            pbc_Labels := ∅;
            PemCertificate := "";
            PemCertificateChain := [] |};
       ccr_RequestId := ca_RequestID req |} in
  sign ← wrapM "cloudCAS CreateCertificate failed"
         (remote (CallCreateCertificate defaultInitiatorContext signReq)
                 (fun tr => client_CreateCertificate (client c) tr signReq));
  let actReq :=
    {| acr_Name := name;
       acr_PemCaCertificate := PemCertificate sign;
       acr_PemIssuerChain := PemCertificateChain sign;
       acr_RequestId := ca_RequestID req |} in
  resp ← wrapM "cloudCAS ActivateCertificateAuthority1 failed"
         (remote (CallActivateCertificateAuthority defaultInitiatorContext actReq)
                 (fun tr => client_ActivateCertificateAuthority (client c) tr actReq));
  (* Wait for the long-running operation. *)
  wrapM "cloudCAS ActivateCertificateAuthority failed"
        (remote (OperationWait defaultInitiatorContext)
                (fun _ => Wait resp defaultInitiatorContext)).

Definition CreateCertificateAuthority (c : CloudCAS)
           (req : CreateCertificateAuthorityRequest)
  : M CreateCertificateAuthorityResponse :=
  if bool_decide (project c = "") then
    fail (errors_New "cloudCAS `project` cannot be empty")
  else if bool_decide (location c = "") then
    fail (errors_New "cloudCAS `location` cannot be empty")
  else match ca_Template req with
  | None => fail (errors_New "createCertificateAuthorityRequest `template` cannot be nil")
  | Some template =>
  if ca_Lifetime req =? 0 then
    fail (errors_New "createCertificateAuthorityRequest `lifetime` cannot be 0")
  else if isIntermediateCA (ca_Type req) && bool_decide (ca_Parent req = None) then
    fail (errors_New "createCertificateAuthorityRequest `parent` cannot be nil")
  else if isIntermediateCA (ca_Type req)
          && bool_decide (ca_ResponseName <$> ca_Parent req = Some "") then
    fail (errors_New "createCertificateAuthorityRequest `parent.name` cannot be empty")
  else
  (* Select key and signature algorithm to use *)
  keySpec ← lift (wrapErr "createCertificateAuthorityRequest `createKey` is not valid"
               match ca_CreateKey req with
               | None => createKeyVersionSpec 0 0
               | Some k => createKeyVersionSpec (SignatureAlgorithm k) (Bits k)
               end);
  (* Normalize or generate id. *)
  certificateAuthorityID ←
    (let id := normalizeCertificateAuthorityName (ca_Name req) in
     if bool_decide (id = "") then createCertificateID else mret id);
  (* Add CertificateAuthority extension *)
  casExtension ← lift (CreateCertificateAuthorityExtension apiv1_CloudCAS
                                                           certificateAuthorityID);
  _ ← modify template (appendExtraExtension casExtension);
  (* Prepare CreateCertificateAuthorityRequest *)
  t ← load template;
  let pbReq (typ : CertificateAuthority_Type) :=
    {| ccar_Parent := "projects/" +:+ project c +:+ "/locations/" +:+ location c;
       ccar_CertificateAuthorityId := certificateAuthorityID;
       ccar_RequestId := ca_RequestID req;
       ccar_CertificateAuthority :=
         {| pba_Name := "";
            pba_Type := typ;
            Tier := ENTERPRISE;
            Config := Some
              {| SubjectConfig :=
                   {| Subject := createSubject t;
                      CommonName := Subject_CommonName t |};
                 ReusableConfig := createReusableConfig t |};
            pba_Lifetime := Some (ca_Lifetime req);
            KeySpec := Some keySpec;
            IssuingOptions := Some {| IncludeCaCertUrl := true;
                                      IncludeCrlAccessUrl := true |};
            pba_Labels := ∅;
            PemCaCertificates := [] |} |} in
  pbReq ← match ca_Type req with
          | RootCA => mret (pbReq SELF_SIGNED)
          | IntermediateCA => mret (pbReq SUBORDINATE)
          | otherCAType code =>
            fail (errors_Errorf
                    "createCertificateAuthorityRequest `type=%d' is invalid or not supported"
                    code)
          end;
  (* Create certificate authority. *)
  resp ← wrapM "cloudCAS CreateCertificateAuthority failed"
         (remote (CallCreateCertificateAuthority defaultContext pbReq)
                 (fun tr => client_CreateCertificateAuthority (client c) tr pbReq));
  (* Wait for the long-running operation. *)
  ca ← wrapM "cloudCAS CreateCertificateAuthority failed"
       (remote (OperationWait defaultInitiatorContext)
               (fun _ => Wait resp defaultInitiatorContext));
  (* Sign Intermediate CAs with the parent. *)
  ca ← (if isIntermediateCA (ca_Type req)
        then signIntermediateCA c (pba_Name ca) req
        else mret ca);
  if len (PemCaCertificates ca) =? 0 then
    fail (errors_New "cloudCAS CreateCertificateAuthority failed: PemCaCertificates is empty")
  else
    cert ← lift (pemCert ← index (PemCaCertificates ca) 0; parseCertificate pemCert);
    chain ← lift (mapM parseCertificate (drop 1 (PemCaCertificates ca)));
    mret {| ca_ResponseName := pba_Name ca;
            ca_Certificate := cert;
            ca_CertificateChain := chain |}
  end.

(** *** The constructor *)

(** [caRegexp].  The source notes that the service's own grammar is
    stricter; this more flexible expression is the one it checks. *)
Definition caRegexp : regexp.Regexp :=
  regexp.MustCompile "^projects/[^/]+/locations/[^/]+/certificateAuthorities/[^/]+$".

(** [New].  [newClient] is the package variable
    [newCertificateAuthorityClient], which tests replace. *)
Definition New (newClient : string -> Outcome CertificateAuthorityClient)
           (opts : Options) : Outcome CloudCAS :=
  opts ← (if IsCreator opts then
            if bool_decide (Project opts = "") then
              Err (errors_New "cloudCAS 'project' cannot be empty")
            else if bool_decide (Location opts = "") then
              Err (errors_New "cloudCAS 'location' cannot be empty")
            else Ok opts
          else
            if bool_decide (CertificateAuthority opts = "") then
              Err (errors_New "cloudCAS 'certificateAuthority' cannot be empty")
            else if negb (regexp.MatchString caRegexp (CertificateAuthority opts)) then
              Err (errors_New "cloudCAS 'certificateAuthority' is not valid certificate authority resource")
            else
              (* Extract project and location from CertificateAuthority *)
              let parts := strings_Split (CertificateAuthority opts) "/" in
              if len parts =? 6 then
                Ok {| CredentialsFile := CredentialsFile opts;
                      CertificateAuthority := CertificateAuthority opts;
                      IsCreator := IsCreator opts;
                      Project := if bool_decide (Project opts = "")
                                 then default "" (parts !! 1%nat) else Project opts;
                      Location := if bool_decide (Location opts = "")
                                  then default "" (parts !! 3%nat) else Location opts |}
              else Ok opts);
  client ← newClient (CredentialsFile opts);
  Ok {| client := client;
        certificateAuthority := CertificateAuthority opts;
        project := Project opts;
        location := Location opts |}.

(** The default value of [newCertificateAuthorityClient]: [dial] is
    [privateca.NewCertificateAuthorityClient], called with the client
    options. *)
Definition newCertificateAuthorityClient
           (dial : list string -> Outcome CertificateAuthorityClient)
           (credentialsFile : string) : Outcome CertificateAuthorityClient :=
  let cloudOpts := if bool_decide (credentialsFile = "") then []
                   else [credentialsFile] in
  wrapErr "error creating client" (dial cloudOpts).

(** *** Vocabulary of the properties *)

(** An issuance from the template at [tpl] gets as far as the remote
    service, which answers [certpb]: the template is there, an
    identifier [id] is drawn and encoded, the marked template converts
    to a certificate configuration, and the service answers the
    request. *)
Definition issuanceAnswered (c : CloudCAS) (w : World) (tpl : ptr) (lifetime : Z)
           (requestID : string) (certpb : pb_Certificate) : Prop :=
  exists t0 id ext cfg,
    heap w !! tpl = Some t0
    /\ uuid_NewRandomFromReader (drawn w) = Ok id
    /\ CreateCertificateAuthorityExtension apiv1_CloudCAS id = Ok ext
    /\ createCertificateConfig (appendExtraExtension ext (removeCAExtension t0)) = Ok cfg
    /\ client_CreateCertificate (client c) (trace w)
                                (issueRequest c id cfg lifetime requestID) = Ok certpb.

(** A revocation gets as far as the remote service, which answers
    [certpb]. *)
Definition revocationAnswered (c : CloudCAS) (w : World) (req : RevokeCertificateRequest)
           (certpb : pb_Certificate) : Prop :=
  exists reason certificate ext cae,
    revocationCodeMap !! rv_ReasonCode req = Some reason
    /\ rv_Certificate req = Some certificate
    /\ FindCertificateAuthorityExtension certificate = Some ext
    /\ asn1_Unmarshal (Value ext) = Ok cae
    /\ client_RevokeCertificate (client c) (trace w)
                                (revokeRequest c cae reason (rv_RequestID req)) = Ok certpb.

(** A step that leaves the store of certificates alone. *)
Definition keepsHeap {A} (m : M A) : Prop := forall w, heap (snd (m w)) = heap w.

(** Whenever the operation [op] sends something to the remote service,
    the template at [tpl] carries at most one correlation extension by
    then.  (No operation touches the template after its first remote
    call.) *)
Definition submitsAtMostOne {A} (op : M A) (tpl : ptr) : Prop :=
  forall w t,
    trace (snd (op w)) <> trace w ->
    heap (snd (op w)) !! tpl = Some t ->
    (countCAExtensions t <= 1)%nat.
End Adapter.

(** ** The resource-name grammar, as the specification states it *)

(** One path component: not empty, and without a slash. *)
Definition segment (x : string) : Prop := x <> "" /\ containsByte "/" x = false.

(** [projects/{p}/locations/{l}/certificateAuthorities/{c}] *)
Definition resourceName (p l c : string) : string :=
  "projects/" +:+ p +:+ "/locations/" +:+ l +:+ "/certificateAuthorities/" +:+ c.

Definition isResourceName (s : string) : Prop :=
  exists p l c, segment p /\ segment l /\ segment c /\ s = resourceName p l c.

(** ** A test double

    The libraries and a remote client with fixed answers, in the manner of
    the package's tests: the theorems below are exercised on them. *)

Module Stub.
Definition pem (s : string) : string := "PEM:" +:+ s.

Definition externals : Externals :=
  {| pb_Subject := string;
     pb_ReusableConfigWrapper := list Extension;
     pb_CertificateConfig := Certificate;
     pb_KeyVersionSpec := Z * Z;
     pem_Decode := fun s =>
       if String.prefix "PEM:" s then Some (string_drop 4 s) else None;
     x509_ParseCertificate := fun der =>
       if bool_decide (der = "") then Err (errors_New "x509: malformed certificate")
       else Ok {| Raw := der; Subject_CommonName := der;
                  Extensions := []; ExtraExtensions := [] |};
     asn1_Marshal := fun cae => Ok ("cas:" +:+ CertificateID cae);
     asn1_Unmarshal := fun b =>
       if String.prefix "cas:" b
       then Ok {| cae_Type := 1; CertificateID := string_drop 4 b |}
       else Err (errors_New "asn1: syntax error");
     uuid_NewRandomFromReader := fun n => Ok ("uuid-" +:+ pretty n);
     createCertificateConfig := fun tpl => Ok tpl;
     createSubject := Subject_CommonName;
     createReusableConfig := ExtraExtensions;
     createKeyVersionSpec := fun alg bits => Ok (alg, bits);
     oidStepCertificateAuthority := [1; 3; 6; 1; 4; 1; 37476; 9000; 64; 2];
     apiv1_CloudCAS := 1 |}.

#[local] Existing Instance externals.

Definition certificate (name : string) : Certificate :=
  {| Raw := name; Subject_CommonName := name;
     Extensions := []; ExtraExtensions := [] |}.

Definition pbCertificate (leaf : string) (chain : list string) : pb_Certificate :=
  {| CertificateConfig := None; pbc_Lifetime := None; pbc_Labels := ∅;
     PemCertificate := leaf; PemCertificateChain := chain |}.

Definition pbAuthority (name : string) (chain : list string) : pb_CertificateAuthority :=
  {| pba_Name := name; pba_Type := SELF_SIGNED; Tier := ENTERPRISE;
     Config := None; pba_Lifetime := None; KeySpec := None;
     IssuingOptions := None; pba_Labels := ∅;
     PemCaCertificates := chain |}.

(** A client that answers every certificate call with [cert] and every
    authority call with [authority]. *)
Definition testClient (cert : Outcome pb_Certificate)
           (authority : Outcome pb_CertificateAuthority) : CertificateAuthorityClient :=
  {| client_CreateCertificate := fun _ _ => cert;
     client_RevokeCertificate := fun _ _ => cert;
     client_GetCertificateAuthority := fun _ _ => authority;
     client_CreateCertificateAuthority := fun _ _ => Ok {| Wait := fun _ => authority |};
     client_FetchCertificateAuthorityCsr := fun _ _ => Ok {| fcr_PemCsr := pem "csr" |};
     client_ActivateCertificateAuthority := fun _ _ => Ok {| Wait := fun _ => authority |} |}.

Definition authorityName : string :=
  "projects/p/locations/l/certificateAuthorities/ca".

Definition cas (cl : CertificateAuthorityClient) : CloudCAS :=
  {| client := cl; certificateAuthority := authorityName;
     project := "p"; location := "l" |}.

(** The chain of the specification's example: the leaf, and
    [intermediate, authorityCert] as its chain. *)
Definition issuing : CloudCAS :=
  cas (testClient (Ok (pbCertificate (pem "leaf") [pem "intermediate"; pem "authority"]))
                  (Ok (pbAuthority authorityName [pem "intermediate"; pem "root"]))).

(** A client whose certificates come with an empty chain. *)
Definition chainless : CloudCAS :=
  cas (testClient (Ok (pbCertificate (pem "leaf") []))
                  (Ok (pbAuthority authorityName []))).

Definition casExtension (id : string) : Extension :=
  {| Id := oidStepCertificateAuthority; Critical := false; Value := "cas:" +:+ id |}.

(** A template that already went through an issuance. *)
Definition template : Certificate :=
  {| Raw := ""; Subject_CommonName := "example.org"; Extensions := [];
     ExtraExtensions := [casExtension "stale"] |}.

(** A certificate issued by this backend, one whose correlation
    extension does not decode, and one without the extension. *)
Definition issued : Certificate :=
  {| Raw := "leaf"; Subject_CommonName := "example.org";
     Extensions := [casExtension "1234"]; ExtraExtensions := [] |}.

Definition garbled : Certificate :=
  {| Raw := "leaf"; Subject_CommonName := "example.org";
     Extensions := [{| Id := oidStepCertificateAuthority; Critical := false;
                       Value := "garbage" |}];
     ExtraExtensions := [] |}.

Definition world : World := {| trace := []; drawn := 0; heap := [template] |}.

Definition options : Options :=
  {| CredentialsFile := ""; CertificateAuthority := authorityName;
     IsCreator := false; Project := ""; Location := "" |}.

Definition newClient (credentialsFile : string) : Outcome CertificateAuthorityClient :=
  Ok (client issuing).

(** A request for a new root authority, from the template at address 0. *)
Definition rootRequest : CreateCertificateAuthorityRequest :=
  {| ca_Name := "My CA"; ca_Type := RootCA; ca_Template := Some 0%nat;
     ca_Lifetime := 1; ca_Parent := None; ca_RequestID := "";
     ca_CreateKey := None |}.

(** The template at address 0 after that request. *)
Definition rootTemplate : Certificate :=
  {| Raw := ""; Subject_CommonName := "example.org"; Extensions := [];
     ExtraExtensions := [casExtension "stale"; casExtension "My-CA"] |}.
End Stub.
(** ** The grammar of the remote service

    The comment above [caRegexp] gives the expression the service
    actually uses:
    [^projects/[a-z][a-z0-9-]{4,28}[a-z0-9]/locations/[a-z0-9-]+/certificateAuthorities/[a-zA-Z0-9-_]+$]. *)

Definition isLower (c : ascii) : bool := (97 <=? byte_of c) && (byte_of c <=? 122).
Definition isUpper (c : ascii) : bool := (65 <=? byte_of c) && (byte_of c <=? 90).
Definition isDigit (c : ascii) : bool := (48 <=? byte_of c) && (byte_of c <=? 57).
Definition isHyphen (c : ascii) : bool := byte_of c =? 45.
Definition isUnderscore (c : ascii) : bool := byte_of c =? 95.

(** [[a-z][a-z0-9-]{4,28}[a-z0-9]] *)
Definition strictProject (p : string) : bool :=
  match list_ascii_of_string p with
  | c0 :: rest =>
    isLower c0
    && match reverse rest with
       | cN :: middle =>
         (isLower cN || isDigit cN)
         && (4 <=? length middle)%nat && (length middle <=? 28)%nat
         && forallb (fun c => isLower c || isDigit c || isHyphen c) middle
       | [] => false
       end
  | [] => false
  end.

(** [[a-z0-9-]+] *)
Definition strictLocation (l : string) : bool :=
  negb (bool_decide (l = ""))
  && forallb (fun c => isLower c || isDigit c || isHyphen c) (list_ascii_of_string l).

(** [[a-zA-Z0-9-_]+] *)
Definition strictAuthority (a : string) : bool :=
  negb (bool_decide (a = ""))
  && forallb (fun c => isLower c || isUpper c || isDigit c || isHyphen c || isUnderscore c)
             (list_ascii_of_string a).

(** ** More vocabulary for the adapter *)

Section AdapterMore.
Context `{Externals}.

(** The request [CreateCertificateAuthority] prepares for an authority of
    type [typ], from the template [t]. *)
Definition authorityRequest (c : CloudCAS) (req : CreateCertificateAuthorityRequest)
           (certificateAuthorityID : string) (keySpec : pb_KeyVersionSpec)
           (t : Certificate) (typ : CertificateAuthority_Type)
  : pb_CreateCertificateAuthorityRequest :=
  {| ccar_Parent := "projects/" +:+ project c +:+ "/locations/" +:+ location c;
     ccar_CertificateAuthorityId := certificateAuthorityID;
     ccar_RequestId := ca_RequestID req;
     ccar_CertificateAuthority :=
       {| pba_Name := "";
          pba_Type := typ;
          Tier := ENTERPRISE;
          Config := Some
            {| SubjectConfig :=
                 {| Subject := createSubject t;
                    CommonName := Subject_CommonName t |};
               ReusableConfig := createReusableConfig t |};
          pba_Lifetime := Some (ca_Lifetime req);
          KeySpec := Some keySpec;
          IssuingOptions := Some {| IncludeCaCertUrl := true;
                                    IncludeCrlAccessUrl := true |};
          pba_Labels := ∅;
          PemCaCertificates := [] |} |}.

(** [CreateCertificateAuthority] from "Create certificate authority." on:
    the create call, the wait, the handshake of an intermediate, and the
    decoding of the chain. *)
Definition awaitAuthority (c : CloudCAS) (req : CreateCertificateAuthorityRequest)
           (pbReq : pb_CreateCertificateAuthorityRequest)
  : M CreateCertificateAuthorityResponse :=
  resp ← wrapM "cloudCAS CreateCertificateAuthority failed"
         (remote (CallCreateCertificateAuthority defaultContext pbReq)
                 (fun tr => client_CreateCertificateAuthority (client c) tr pbReq));
  ca ← wrapM "cloudCAS CreateCertificateAuthority failed"
       (remote (OperationWait defaultInitiatorContext)
               (fun _ => Wait resp defaultInitiatorContext));
  ca ← (if isIntermediateCA (ca_Type req)
        then signIntermediateCA c (pba_Name ca) req
        else mret ca);
  if len (PemCaCertificates ca) =? 0 then
    fail (errors_New "cloudCAS CreateCertificateAuthority failed: PemCaCertificates is empty")
  else
    cert ← lift (pemCert ← index (PemCaCertificates ca) 0; parseCertificate pemCert);
    chain ← lift (mapM parseCertificate (drop 1 (PemCaCertificates ca)));
    mret {| ca_ResponseName := pba_Name ca;
            ca_Certificate := cert;
            ca_CertificateChain := chain |}.

(** The identifier of a new authority: the normalized name, or a fresh
    identifier when that is empty. *)
Definition authorityID (req : CreateCertificateAuthorityRequest) : M string :=
  let id := normalizeCertificateAuthorityName (ca_Name req) in
  if bool_decide (id = "") then createCertificateID else mret id.

(** The checks of [CreateCertificateAuthority] pass. *)
Definition authorityRequestValid (c : CloudCAS) (req : CreateCertificateAuthorityRequest)
  : Prop :=
  project c <> "" /\ location c <> ""
  /\ is_Some (ca_Template req)
  /\ ca_Lifetime req <> 0
  /\ (ca_Type req = IntermediateCA ->
      exists parent, ca_Parent req = Some parent /\ ca_ResponseName parent <> "").

(** What reaches the remote service, by kind and deadline. *)
Inductive EventKind : Type :=
| KCreateCertificate
| KRevokeCertificate
| KGetCertificateAuthority
| KCreateCertificateAuthority
| KFetchCertificateAuthorityCsr
| KActivateCertificateAuthority
| KWait.

Definition shape (ev : Event) : EventKind * Z :=
  match ev with
  | CallCreateCertificate timeout _ => (KCreateCertificate, timeout)
  | CallRevokeCertificate timeout _ => (KRevokeCertificate, timeout)
  | CallGetCertificateAuthority timeout _ => (KGetCertificateAuthority, timeout)
  | CallCreateCertificateAuthority timeout _ => (KCreateCertificateAuthority, timeout)
  | CallFetchCertificateAuthorityCsr timeout _ => (KFetchCertificateAuthorityCsr, timeout)
  | CallActivateCertificateAuthority timeout _ => (KActivateCertificateAuthority, timeout)
  | OperationWait timeout => (KWait, timeout)
  end.

(** The step [m] follows the protocol [protocol]: a run that returns a
    value has sent exactly the requests of the protocol, in order; a run
    that fails or panics has sent the first few of them. *)
Definition follows {A} (m : M A) (protocol : list (EventKind * Z)) : Prop :=
  forall w, exists sent,
    trace (snd (m w)) = trace w ++ sent
    /\ match fst (m w) with
       | Ok _ => shape <$> sent = protocol
       | _ => shape <$> sent `prefix_of` protocol
       end.

(** The subordinate-signing handshake, and the creation of a root and of
    an intermediate authority. *)
Definition handshakeProtocol : list (EventKind * Z) :=
  [(KFetchCertificateAuthorityCsr, defaultInitiatorContext);
   (KCreateCertificate, defaultInitiatorContext);
   (KActivateCertificateAuthority, defaultInitiatorContext);
   (KWait, defaultInitiatorContext)].

Definition rootProtocol : list (EventKind * Z) :=
  [(KCreateCertificateAuthority, defaultContext); (KWait, defaultInitiatorContext)].

Definition authorityProtocol (t : CertificateAuthorityType) : list (EventKind * Z) :=
  if isIntermediateCA t then rootProtocol ++ handshakeProtocol else rootProtocol.
End AdapterMore.

(** ** More of the test double *)

Module StubMore.
#[local] Existing Instance Stub.externals.

(** The libraries when the random source is exhausted. *)
Definition exhausted : Externals :=
  {| pb_Subject := string;
     pb_ReusableConfigWrapper := list Extension;
     pb_CertificateConfig := Certificate;
     pb_KeyVersionSpec := Z * Z;
     pem_Decode := @pem_Decode Stub.externals;
     x509_ParseCertificate := @x509_ParseCertificate Stub.externals;
     asn1_Marshal := @asn1_Marshal Stub.externals;
     asn1_Unmarshal := @asn1_Unmarshal Stub.externals;
     uuid_NewRandomFromReader := fun _ => Err (errors_New "unexpected EOF");
     createCertificateConfig := fun tpl => Ok tpl;
     createSubject := Subject_CommonName;
     createReusableConfig := ExtraExtensions;
     createKeyVersionSpec := fun alg bits => Ok (alg, bits);
     oidStepCertificateAuthority := @oidStepCertificateAuthority Stub.externals;
     apiv1_CloudCAS := 1 |}.

Definition unavailable : error := errors_New "rpc error: code = Unavailable".

(** A client of a service that is down. *)
Definition down : CloudCAS :=
  Stub.cas (Stub.testClient (Err unavailable) (Err unavailable)).

(** The same service for an adapter whose random source is exhausted. *)
Definition dry : @CloudCAS exhausted :=
  {| client :=
       {| client_CreateCertificate := fun _ _ => Err unavailable;
          client_RevokeCertificate := fun _ _ => Err unavailable;
          client_GetCertificateAuthority := fun _ _ => Err unavailable;
          client_CreateCertificateAuthority := fun _ _ => Err unavailable;
          client_FetchCertificateAuthorityCsr := fun _ _ => Err unavailable;
          client_ActivateCertificateAuthority := fun _ _ => Err unavailable |};
     certificateAuthority := Stub.authorityName;
     project := "p"; location := "l" |}.

Definition dryWorld : @World exhausted :=
  {| trace := []; drawn := 0; heap := [Stub.rootTemplate] |}.

(** A world whose template carries two correlation extensions, as
    [CreateCertificateAuthority] leaves it. *)
Definition accumulated : World :=
  {| trace := []; drawn := 0; heap := [Stub.rootTemplate] |}.

(** That template without its first correlation extension, and then
    with the extension of a new issuance. *)
Definition lessFirst : Certificate :=
  {| Raw := ""; Subject_CommonName := "example.org"; Extensions := [];
     ExtraExtensions := [Stub.casExtension "My-CA"] |}.

Definition reissued : Certificate :=
  {| Raw := ""; Subject_CommonName := "example.org"; Extensions := [];
     ExtraExtensions := [Stub.casExtension "My-CA"; Stub.casExtension "uuid-0"] |}.

(** A certificate that another backend issued. *)
Definition foreign : Certificate := Stub.certificate "foreign".

(** Requests for an authority of an unknown type, and for an intermediate
    with and without its parent. *)
Definition oddRequest : CreateCertificateAuthorityRequest :=
  {| ca_Name := "My CA"; ca_Type := otherCAType 7; ca_Template := Some 0%nat;
     ca_Lifetime := 1; ca_Parent := None; ca_RequestID := "";
     ca_CreateKey := None |}.

Definition orphanRequest : CreateCertificateAuthorityRequest :=
  {| ca_Name := "My CA"; ca_Type := IntermediateCA; ca_Template := Some 0%nat;
     ca_Lifetime := 1; ca_Parent := None; ca_RequestID := "";
     ca_CreateKey := None |}.

Definition parent : CreateCertificateAuthorityResponse :=
  {| ca_ResponseName := "projects/p/locations/l/certificateAuthorities/root";
     ca_Certificate := Stub.certificate "root"; ca_CertificateChain := [] |}.

Definition intermediateRequest : CreateCertificateAuthorityRequest :=
  {| ca_Name := "My CA"; ca_Type := IntermediateCA; ca_Template := Some 0%nat;
     ca_Lifetime := 1; ca_Parent := Some parent; ca_RequestID := "";
     ca_CreateKey := None |}.

(** The template at address 0 once marked for the authority [My-CA]. *)
Definition marked : Certificate :=
  appendExtraExtension (Stub.casExtension "My-CA") Stub.template.

(** What the test client answers. *)
Definition answeredCertificate : pb_Certificate :=
  Stub.pbCertificate (Stub.pem "leaf") [Stub.pem "intermediate"; Stub.pem "authority"].

Definition answeredAuthority : pb_CertificateAuthority :=
  Stub.pbAuthority Stub.authorityName [Stub.pem "intermediate"; Stub.pem "root"].
End StubMore.

(** * Properties *)

(** ** The definitions at work *)

(** The two bytes of U+00E9, and a three-byte sequence cut short. *)
Example runes_two_bytes :
  runes ("a" +:+ String (ascii_of_byte 0xC3) (String (ascii_of_byte 0xA9) "z"))
  = [97; 233; 122].
Proof. reflexivity. Qed.

Example runes_invalid :
  runes (String (ascii_of_byte 0xE2) (String (ascii_of_byte 0x82) "a"))
  = [utf8.RuneError; utf8.RuneError; 97].
Proof. reflexivity. Qed.

Example normalize_name :
  normalizeCertificateAuthorityName
    ("My CA (prod)/1_x-" +:+ String (ascii_of_byte 0xC3) (String (ascii_of_byte 0xA9) ""))
  = "My-CA--prod--1_x--".
Proof. reflexivity. Qed.

Example caRegexp_compiles :
  regexp.Compile "^projects/[^/]+/locations/[^/]+/certificateAuthorities/[^/]+$"
  = Some caRegexp.
Proof. reflexivity. Qed.

Example caRegexp_accepts :
  regexp.MatchString caRegexp "projects/p/locations/l/certificateAuthorities/ca" = true.
Proof. reflexivity. Qed.

Example caRegexp_rejects_trailing_slash :
  regexp.MatchString caRegexp "projects/p/locations/l/certificateAuthorities/ca/" = false.
Proof. reflexivity. Qed.

Example caRegexp_rejects_empty_component :
  regexp.MatchString caRegexp "projects//locations/l/certificateAuthorities/ca" = false.
Proof. reflexivity. Qed.

Example Split_resource_name :
  strings_Split "projects/p/locations/l/certificateAuthorities/ca" "/"
  = ["projects"; "p"; "locations"; "l"; "certificateAuthorities"; "ca"].
Proof. reflexivity. Qed.

Example Split_empty : strings_Split "" "/" = [""].
Proof. reflexivity. Qed.

(** ** Bytes and runes *)

Lemma byte_of_range (c : ascii) : 0 <= byte_of c < 256.
Proof.
  unfold byte_of. pose proof (N_ascii_bounded c). lia.
Qed.

Lemma ascii_of_byte_of (c : ascii) : ascii_of_byte (byte_of c) = c.
Proof.
  unfold ascii_of_byte, byte_of. rewrite N2Z.id. apply ascii_N_embedding.
Qed.

Lemma byte_of_ascii_of (b : Z) : 0 <= b < 256 -> byte_of (ascii_of_byte b) = b.
Proof.
  intros Hb. unfold ascii_of_byte, byte_of.
  rewrite N_ascii_embedding by lia. lia.
Qed.

Lemma first_ascii (b : Z) : b < 0x80 -> utf8.first b = utf8.as_.
Proof.
  intros Hb. unfold utf8.first.
  destruct (Z.ltb_spec b 0x80); [reflexivity | lia].
Qed.

Lemma runes_ascii_cons (c : ascii) (s : string) :
  byte_of c < 0x80 -> runes (String c s) = byte_of c :: runes s.
Proof.
  intros Hc. unfold runes. cbn [String.length runes_fuel utf8.DecodeRuneInString].
  rewrite first_ascii by assumption. reflexivity.
Qed.

Lemma EncodeRune_ascii (r : Z) :
  0 <= r <= 0x7F -> utf8.EncodeRune r = String (ascii_of_byte r) "".
Proof.
  intros Hr. unfold utf8.EncodeRune.
  destruct (Z.leb_spec 0 r); [| lia].
  destruct (Z.leb_spec r 0x7F); [reflexivity | lia].
Qed.

(** ** [normalizeCertificateAuthorityName] *)

Lemma permitted_range (r : Z) : permitted r -> 0 <= r <= 0x7F.
Proof. unfold permitted. lia. Qed.

Lemma normalizeRune_permitted (r : Z) : permitted r -> normalizeRune r = r.
Proof.
  unfold permitted, normalizeRune, rune, byte_of. cbn.
  intros Hr.
  repeat match goal with
         | |- context [?a <=? ?b] => destruct (Z.leb_spec a b); cbn [andb]
         | |- context [?a =? ?b] => destruct (Z.eqb_spec a b)
         end; lia.
Qed.

Lemma normalizeRune_other (r : Z) : ~ permitted r -> normalizeRune r = rune "-".
Proof.
  unfold permitted, normalizeRune, rune, byte_of. cbn.
  intros Hr.
  repeat match goal with
         | |- context [?a <=? ?b] => destruct (Z.leb_spec a b); cbn [andb]
         | |- context [?a =? ?b] => destruct (Z.eqb_spec a b)
         end; lia.
Qed.

Lemma permitted_dec (r : Z) : {permitted r} + {~ permitted r}.
Proof.
  unfold permitted.
  destruct (decide (65 <= r <= 90 \/ 97 <= r <= 122 \/ 48 <= r <= 57 \/ r = 95 \/ r = 45));
    [left | right]; assumption.
Qed.

Lemma normalizeRune_image (r : Z) : permitted (normalizeRune r).
Proof.
  destruct (permitted_dec r) as [Hr | Hr].
  - rewrite normalizeRune_permitted; assumption.
  - rewrite normalizeRune_other by assumption.
    do 4 right. reflexivity.
Qed.

Lemma normalizeRune_idempotent (r : Z) : normalizeRune (normalizeRune r) = normalizeRune r.
Proof. apply normalizeRune_permitted, normalizeRune_image. Qed.

(** The output is one byte per rune of the input. *)
Lemma normalize_bytes (s : string) :
  list_ascii_of_string (normalizeCertificateAuthorityName s)
  = map (fun r => ascii_of_byte (normalizeRune r)) (runes s).
Proof.
  unfold normalizeCertificateAuthorityName, strings_Map.
  induction (runes s) as [| r rs IH]; [reflexivity |].
  cbn [map foldr].
  pose proof (permitted_range _ (normalizeRune_image r)) as Hr.
  destruct (Z.ltb_spec (normalizeRune r) 0); [lia |].
  rewrite EncodeRune_ascii by assumption.
  simpl. f_equal. exact IH.
Qed.

Lemma runes_of_ascii (l : list ascii) :
  Forall (fun c => byte_of c < 0x80) l ->
  runes (string_of_list_ascii l) = map byte_of l.
Proof.
  induction 1 as [| c l Hc _ IH]; [reflexivity |].
  cbn [string_of_list_ascii map]. rewrite runes_ascii_cons by assumption.
  rewrite IH. reflexivity.
Qed.

Lemma normalize_idempotent (s : string) :
  normalizeCertificateAuthorityName (normalizeCertificateAuthorityName s)
  = normalizeCertificateAuthorityName s.
Proof.
  rewrite <- (string_of_list_ascii_of_string
                (normalizeCertificateAuthorityName (normalizeCertificateAuthorityName s))).
  rewrite <- (string_of_list_ascii_of_string (normalizeCertificateAuthorityName s)) at 2.
  f_equal. rewrite !normalize_bytes.
  rewrite <- (string_of_list_ascii_of_string (normalizeCertificateAuthorityName s)).
  rewrite normalize_bytes, runes_of_ascii.
  - rewrite map_map, map_map. apply map_ext. intros r.
    pose proof (permitted_range _ (normalizeRune_image r)).
    rewrite byte_of_ascii_of by lia.
    rewrite normalizeRune_idempotent. reflexivity.
  - induction (runes s) as [| r rs IH]; constructor; [| exact IH].
    pose proof (permitted_range _ (normalizeRune_image r)).
    rewrite byte_of_ascii_of by lia. lia.
Qed.

(** C7.  For every name, the normalized name has one byte per character
    (rune) of the name: the character itself when it is in [A-Za-z0-9_-],
    and a hyphen otherwise; and normalizing a normalized name changes
    nothing. *)
Theorem normalize_maps_and_is_idempotent (s : string) :
  Forall2 (fun (r : Z) (b : ascii) =>
             (permitted r -> byte_of b = r) /\ (~ permitted r -> b = "-"%char))
          (runes s) (list_ascii_of_string (normalizeCertificateAuthorityName s))
  /\ normalizeCertificateAuthorityName (normalizeCertificateAuthorityName s)
     = normalizeCertificateAuthorityName s.
Proof.
  split; [| apply normalize_idempotent].
  rewrite normalize_bytes.
  induction (runes s) as [| r rs IH]; constructor; [| exact IH].
  split; intros Hr.
  - rewrite normalizeRune_permitted by assumption.
    apply byte_of_ascii_of. apply permitted_range in Hr. lia.
  - rewrite normalizeRune_other by assumption. reflexivity.
Qed.

(** ** Strings *)

Lemma append_nil_l (s : string) : "" +:+ s = s.
Proof. reflexivity. Qed.

Lemma append_cons (c : ascii) (s1 s2 : string) :
  String c s1 +:+ s2 = String c (s1 +:+ s2).
Proof. reflexivity. Qed.

Ltac simpl_append := repeat (rewrite append_cons || rewrite append_nil_l).
Tactic Notation "simpl_append" "in" hyp(H) :=
  repeat (rewrite append_cons in H || rewrite append_nil_l in H).

Lemma append_assoc (s1 s2 s3 : string) : (s1 +:+ s2) +:+ s3 = s1 +:+ (s2 +:+ s3).
Proof.
  induction s1 as [| c s1 IH]; simpl_append; [reflexivity | rewrite IH; reflexivity].
Qed.

Lemma append_empty_r (s : string) : s +:+ "" = s.
Proof.
  induction s as [| c s IH]; simpl_append; [reflexivity | rewrite IH; reflexivity].
Qed.

Lemma append_eq_empty (s1 s2 : string) : s1 +:+ s2 = "" -> s1 = "" /\ s2 = "".
Proof. destruct s1; simpl_append; [auto | discriminate]. Qed.

Lemma containsByte_append (sep : ascii) (s1 s2 : string) :
  containsByte sep (s1 +:+ s2) = containsByte sep s1 || containsByte sep s2.
Proof.
  induction s1 as [| c s1 IH]; simpl_append; simpl; [reflexivity |].
  rewrite IH. apply orb_assoc.
Qed.

(** ** Regular expressions: the matcher decides the language *)

Module regexp_facts.
Import regexp.

Create HintDb re.
#[local] Hint Constructors matches : re.

Lemma matches_empty_app r1 r2 :
  matches r1 "" -> matches r2 "" -> matches (Concat r1 r2) "".
Proof. intros H1 H2. exact (MConcat _ _ _ _ H1 H2). Qed.

Lemma nullable_sound r : nullable r = true -> matches r "".
Proof.
  induction r; simpl; intros Hn; try discriminate; eauto with re.
  - apply andb_true_iff in Hn as [H1 H2]. auto using matches_empty_app.
  - apply orb_true_iff in Hn as [H1 | H2]; eauto with re.
  - exact (MPlus _ _ _ (IHr Hn) (MStarNil _)).
Qed.

Lemma nullable_complete r s : matches r s -> s = "" -> nullable r = true.
Proof.
  induction 1; simpl; intros Hs; try discriminate; try reflexivity.
  - apply append_eq_empty in Hs as [-> ->]. rewrite IHmatches1, IHmatches2; reflexivity.
  - rewrite IHmatches by assumption. reflexivity.
  - rewrite IHmatches by assumption. apply orb_true_r.
  - apply append_eq_empty in Hs as [-> _]. auto.
Qed.

Lemma nullable_matches r : nullable r = true <-> matches r "".
Proof. split; [apply nullable_sound | intros Hm; exact (nullable_complete _ _ Hm eq_refl)]. Qed.

Lemma deriv_complete r s0 :
  matches r s0 -> forall a s, s0 = String a s -> matches (deriv a r) s.
Proof.
  induction 1 as [| c | c b Hb | b | r1 r2 s1 s2 H1 IH1 H2 IH2 | r1 r2 s0 H1 IH1
                  | r1 r2 s0 H2 IH2 | r | r s1 s2 H1 IH1 H2 IH2 | r s1 s2 H1 IH1 H2 IH2];
    intros a s Hs; simpl; try discriminate.
  - injection Hs as <- <-. rewrite Ascii.eqb_refl. constructor.
  - injection Hs as <- <-. destruct (Ascii.eqb_spec b c); [contradiction | constructor].
  - injection Hs as <- <-. constructor.
  - destruct s1 as [| b s1]; simpl_append in Hs.
    + subst s2. rewrite (nullable_complete _ _ H1 eq_refl).
      apply MAlternateR. eauto.
    + injection Hs as <- <-.
      destruct (nullable r1); [apply MAlternateL |]; constructor; eauto.
  - apply MAlternateL. eauto.
  - apply MAlternateR. eauto.
  - destruct s1 as [| b s1]; simpl_append in Hs.
    + subst s2. exact (IH2 _ _ eq_refl).
    + injection Hs as <- <-. constructor; eauto.
  - destruct s1 as [| b s1]; simpl_append in Hs.
    + subst s2. exact (IH2 _ _ eq_refl).
    + injection Hs as <- <-. constructor; eauto.
Qed.

Lemma deriv_sound a r : forall s, matches (deriv a r) s -> matches r (String a s).
Proof.
  induction r as [| | c | c | | r1 IH1 r2 IH2 | r1 IH1 r2 IH2 | r IH | r IH];
    simpl; intros s Hm.
  - inversion Hm.
  - inversion Hm.
  - destruct (Ascii.eqb_spec a c); inversion Hm; subst. constructor.
  - destruct (Ascii.eqb_spec a c); inversion Hm; subst. constructor. assumption.
  - inversion Hm; subst. constructor.
  - assert (Hcat : forall s, matches (Concat (deriv a r1) r2) s ->
                             matches (Concat r1 r2) (String a s)).
    { intros s' Hc. inversion Hc; subst.
      change (String a (s1 +:+ s2)) with (String a s1 +:+ s2).
      constructor; auto. }
    destruct (nullable r1) eqn:Hn; [| auto].
    inversion Hm; subst; [auto |].
    change (String a s) with ("" +:+ String a s).
    constructor; [apply nullable_sound; assumption | auto].
  - inversion Hm; subst; [apply MAlternateL | apply MAlternateR]; auto.
  - inversion Hm; subst.
    change (String a (s1 +:+ s2)) with (String a s1 +:+ s2).
    constructor; auto.
  - inversion Hm; subst.
    change (String a (s1 +:+ s2)) with (String a s1 +:+ s2).
    constructor; auto.
Qed.

Lemma fullMatch_matches r s : fullMatch r s = true <-> matches r s.
Proof.
  revert r. induction s as [| a s IH]; intros r; simpl.
  - apply nullable_matches.
  - rewrite IH. split; [apply deriv_sound |].
    intros Hm. exact (deriv_complete _ _ Hm _ _ eq_refl).
Qed.

(** Inversion principles, by shape of the expression. *)
Lemma matches_EmptyMatch s : matches EmptyMatch s <-> s = "".
Proof. split; [inversion 1; reflexivity | intros ->; constructor]. Qed.

Lemma matches_Concat r1 r2 s :
  matches (Concat r1 r2) s
  <-> exists s1 s2, s = s1 +:+ s2 /\ matches r1 s1 /\ matches r2 s2.
Proof.
  split.
  - inversion 1; subst. eauto.
  - intros (s1 & s2 & -> & H1 & H2). constructor; assumption.
Qed.

Lemma matches_Literal c s : matches (Literal c) s <-> s = String c "".
Proof. split; [inversion 1; reflexivity | intros ->; constructor]. Qed.

Lemma matches_literals t : forall r s,
  matches (literals r t) s <-> exists s1, s = s1 +:+ t /\ matches r s1.
Proof.
  unfold literals. induction t as [| c t IH]; intros r s; simpl.
  - split.
    + intros Hm. exists s. rewrite append_empty_r. auto.
    + intros (s1 & -> & Hm). rewrite append_empty_r. assumption.
  - rewrite IH. split.
    + intros (s1 & -> & Hm). apply matches_Concat in Hm as (s2 & s3 & -> & H2 & H3).
      apply matches_Literal in H3 as ->. exists s2.
      rewrite append_assoc. auto.
    + intros (s1 & -> & Hm). exists (s1 +:+ String c "").
      rewrite append_assoc. split; [reflexivity |].
      constructor; [assumption | constructor].
Qed.

(** [[^c]*] and [[^c]+]: the strings without the byte [c]. *)
Lemma matches_Star_NotLiteral c s :
  matches (Star (NotLiteral c)) s <-> containsByte c s = false.
Proof.
  split.
  - intros Hm. remember (Star (NotLiteral c)) as r eqn:Hr.
    induction Hm; try discriminate; injection Hr as ->; [reflexivity |].
    rewrite containsByte_append, IHHm2 by reflexivity.
    inversion Hm1; subst. simpl.
    destruct (Ascii.eqb_spec a c); [contradiction | reflexivity].
  - induction s as [| a s IH]; simpl; intros Hc; [constructor |].
    apply orb_false_iff in Hc as [Ha Hs].
    change (String a s) with (String a "" +:+ s).
    constructor; [| auto]. constructor. apply Ascii.eqb_neq. assumption.
Qed.

Lemma matches_Plus_NotLiteral c s :
  matches (Plus (NotLiteral c)) s <-> s <> "" /\ containsByte c s = false.
Proof.
  split.
  - inversion 1 as [| | | | | | | | | r s1 s2 H1 H2]; subst.
    inversion H1; subst. simpl_append. simpl. split; [discriminate |].
    apply matches_Star_NotLiteral in H2. rewrite H2.
    destruct (Ascii.eqb_spec a c); [contradiction | reflexivity].
  - destruct s as [| a s]; intros [Hne Hc]; [contradiction |].
    simpl in Hc. apply orb_false_iff in Hc as [Ha Hs].
    change (String a s) with (String a "" +:+ s).
    constructor; [| apply matches_Star_NotLiteral; assumption].
    constructor. apply Ascii.eqb_neq. assumption.
Qed.
End regexp_facts.

(** ** [caRegexp] and [strings.Split] on resource names *)

Lemma caRegexp_body :
  regexp.body caRegexp
  = regexp.Concat
      (regexp.literals
         (regexp.Concat
            (regexp.literals
               (regexp.Concat
                  (regexp.literals regexp.EmptyMatch "projects/")
                  (regexp.Plus (regexp.NotLiteral "/")))
               "/locations/")
            (regexp.Plus (regexp.NotLiteral "/")))
         "/certificateAuthorities/")
      (regexp.Plus (regexp.NotLiteral "/")).
Proof. reflexivity. Qed.

Lemma caRegexp_MatchString (s : string) :
  regexp.MatchString caRegexp s = true <-> isResourceName s.
Proof.
  unfold regexp.MatchString.
  change (regexp.beginText caRegexp) with true.
  change (regexp.endText caRegexp) with true.
  cbv iota. rewrite regexp_facts.fullMatch_matches, caRegexp_body.
  unfold isResourceName, resourceName, segment. split.
  - intros Hm.
    apply regexp_facts.matches_Concat in Hm as (s5 & c & -> & Hm & Hc).
    apply regexp_facts.matches_literals in Hm as (s4 & -> & Hm).
    apply regexp_facts.matches_Concat in Hm as (s3 & l & -> & Hm & Hl).
    apply regexp_facts.matches_literals in Hm as (s2 & -> & Hm).
    apply regexp_facts.matches_Concat in Hm as (s1 & p & -> & Hm & Hp).
    apply regexp_facts.matches_literals in Hm as (s0 & -> & Hm).
    apply regexp_facts.matches_EmptyMatch in Hm as ->.
    apply regexp_facts.matches_Plus_NotLiteral in Hp, Hl, Hc.
    exists p, l, c. repeat split; try tauto.
    rewrite !append_assoc. reflexivity.
  - intros (p & l & c & Hp & Hl & Hc & ->).
    apply regexp_facts.matches_Plus_NotLiteral in Hp, Hl, Hc.
    apply regexp_facts.matches_Concat.
    exists ("projects/" +:+ p +:+ "/locations/" +:+ l +:+ "/certificateAuthorities/"), c.
    split; [rewrite !append_assoc; reflexivity |]. split; [| assumption].
    apply regexp_facts.matches_literals.
    exists ("projects/" +:+ p +:+ "/locations/" +:+ l).
    split; [rewrite !append_assoc; reflexivity |].
    apply regexp_facts.matches_Concat.
    exists ("projects/" +:+ p +:+ "/locations/"), l.
    split; [rewrite !append_assoc; reflexivity |]. split; [| assumption].
    apply regexp_facts.matches_literals.
    exists ("projects/" +:+ p). split; [rewrite !append_assoc; reflexivity |].
    apply regexp_facts.matches_Concat.
    exists "projects/", p. split; [reflexivity |]. split; [| assumption].
    apply regexp_facts.matches_literals.
    exists "". split; [reflexivity | constructor].
Qed.

Lemma strings_Split_nonempty (s : string) (sep : ascii) : strings_Split s sep <> [].
Proof.
  induction s as [| c s IH]; simpl; [discriminate |].
  destruct (Ascii.eqb c sep); [discriminate |].
  destruct (strings_Split s sep); [contradiction | discriminate].
Qed.

Lemma strings_Split_segment (x rest : string) (sep : ascii) :
  containsByte sep x = false ->
  strings_Split (x +:+ String sep rest) sep = x :: strings_Split rest sep.
Proof.
  induction x as [| c x IH]; simpl_append; simpl; intros Hx.
  - rewrite Ascii.eqb_refl. reflexivity.
  - apply orb_false_iff in Hx as [Hc Hx]. rewrite Hc, IH by assumption. reflexivity.
Qed.

Lemma strings_Split_last (x : string) (sep : ascii) :
  containsByte sep x = false -> strings_Split x sep = [x].
Proof.
  induction x as [| c x IH]; simpl; intros Hx; [reflexivity |].
  apply orb_false_iff in Hx as [Hc Hx]. rewrite Hc, IH by assumption. reflexivity.
Qed.

Lemma strings_Split_resourceName (p l c : string) :
  segment p -> segment l -> segment c ->
  strings_Split (resourceName p l c) "/"
  = ["projects"; p; "locations"; l; "certificateAuthorities"; c].
Proof.
  intros [_ Hp] [_ Hl] [_ Hc].
  change (resourceName p l c)
    with ("projects" +:+ String "/" (p +:+ String "/" ("locations" +:+ String "/"
            (l +:+ String "/" ("certificateAuthorities" +:+ String "/" c))))).
  rewrite !strings_Split_segment by (assumption || reflexivity).
  rewrite strings_Split_last by assumption. reflexivity.
Qed.

(** ** The constructor *)

Section Constructor.
Context `{Externals}.
Variable newClient : string -> Outcome CertificateAuthorityClient.

(** What [New] returns for a non-creator whose identifier is
    [projects/p/locations/l/certificateAuthorities/c]. *)
Lemma New_resourceName (opts : Options) (p l c : string) :
  IsCreator opts = false ->
  segment p -> segment l -> segment c ->
  CertificateAuthority opts = resourceName p l c ->
  New newClient opts
  = (client ← newClient (CredentialsFile opts);
     Ok {| client := client;
           certificateAuthority := CertificateAuthority opts;
           project := if bool_decide (Project opts = "") then p else Project opts;
           location := if bool_decide (Location opts = "") then l else Location opts |}).
Proof.
  intros Hcreator Hp Hl Hc Hca.
  assert (Hmatch : regexp.MatchString caRegexp (CertificateAuthority opts) = true).
  { apply caRegexp_MatchString. exists p, l, c. auto. }
  destruct opts as [cred ca creator proj loc]. simpl in *. subst ca creator.
  unfold New. cbn [IsCreator CertificateAuthority Project Location CredentialsFile].
  rewrite Hmatch.
  rewrite (bool_decide_eq_false_2 (resourceName p l c = "")) by discriminate.
  rewrite strings_Split_resourceName by assumption.
  reflexivity.
Qed.

(** Every adapter the constructor returns knows its project and its
    location. *)
Lemma New_project_location (opts : Options) (c : CloudCAS) :
  New newClient opts = Ok c -> project c <> "" /\ location c <> "".
Proof.
  destruct (IsCreator opts) eqn:Hcreator.
  - unfold New. rewrite Hcreator.
    destruct (bool_decide_reflect (Project opts = "")) as [| Hp]; [discriminate |].
    destruct (bool_decide_reflect (Location opts = "")) as [| Hl]; [discriminate |].
    simpl. destruct (newClient _); [| discriminate ..].
    intros [= <-]. simpl. auto.
  - destruct (regexp.MatchString caRegexp (CertificateAuthority opts)) eqn:Hmatch.
    + apply caRegexp_MatchString in Hmatch as (p & l & ca & Hp & Hl & Hca & Hname).
      rewrite (New_resourceName opts p l ca) by assumption.
      destruct (newClient _); [| discriminate ..].
      intros [= <-]. simpl. destruct Hp as [Hp _], Hl as [Hl _].
      split; case_bool_decide; assumption.
    + unfold New. rewrite Hcreator, Hmatch.
      destruct (bool_decide _); discriminate.
Qed.

(** C8.  With is-creator false, the constructor fails when the
    certificate-authority identifier is missing or is not of the form
    [projects/{p}/locations/{l}/certificateAuthorities/{c}]; when it is
    of that form, the constructor goes on to create the client, and the
    adapter's project and location are the ones of the options or, where
    omitted, the components [p] and [l] of the identifier. *)
Theorem New_requires_resource_name (opts : Options) :
  IsCreator opts = false ->
  (CertificateAuthority opts = "" ->
   New newClient opts
   = Err (errors_New "cloudCAS 'certificateAuthority' cannot be empty"))
  /\ (CertificateAuthority opts <> "" ->
      ~ isResourceName (CertificateAuthority opts) ->
      New newClient opts
      = Err (errors_New "cloudCAS 'certificateAuthority' is not valid certificate authority resource"))
  /\ (forall p l c,
        segment p -> segment l -> segment c ->
        CertificateAuthority opts = resourceName p l c ->
        New newClient opts
        = (client ← newClient (CredentialsFile opts);
           Ok {| client := client;
                 certificateAuthority := resourceName p l c;
                 project := if bool_decide (Project opts = "") then p else Project opts;
                 location := if bool_decide (Location opts = "") then l
                             else Location opts |})).
Proof.
  intros Hcreator. split; [| split].
  - intros Hempty. unfold New. rewrite Hcreator, Hempty. reflexivity.
  - intros Hne Hgrammar. unfold New. rewrite Hcreator.
    rewrite bool_decide_eq_false_2 by assumption.
    destruct (regexp.MatchString caRegexp (CertificateAuthority opts)) eqn:Hmatch;
      [| reflexivity].
    apply caRegexp_MatchString in Hmatch. contradiction.
  - intros p l c Hp Hl Hc Hca.
    rewrite (New_resourceName opts p l c) by assumption.
    rewrite Hca. reflexivity.
Qed.
End Constructor.

(** ** The operations *)

Section Operations.
Context `{Externals}.

Lemma trace_not_extended (l : list Event) (ev : Event) : l <> l ++ [ev].
Proof.
  intros Heq. apply (f_equal length) in Heq.
  rewrite length_app in Heq. simpl in Heq. lia.
Qed.

(** *** Revocation reasons *)

Lemma revocationCodeMap_lookup (code : Z) :
  is_Some (revocationCodeMap !! code)
  <-> 0 <= code <= 6 \/ code = 9 \/ code = 10.
Proof.
  unfold revocationCodeMap. rewrite !lookup_insert, lookup_empty.
  repeat case_decide; subst; split; intros Hc;
    try (eexists; reflexivity); try lia; destruct Hc as [? Hc]; discriminate.
Qed.

(** C2.  The reason-code table is defined for exactly the codes 0 to 6,
    9 and 10; for 7, 8 and every code outside 0..10, RevokeCertificate
    returns the invalid-reason error and leaves the world as it was: the
    remote service receives nothing. *)
Theorem revocation_reason_codes (c : CloudCAS) (req : RevokeCertificateRequest) (w : World) :
  (is_Some (revocationCodeMap !! rv_ReasonCode req)
   <-> rv_ReasonCode req ∈ [0; 1; 2; 3; 4; 5; 6; 9; 10])
  /\ (rv_ReasonCode req = 7 \/ rv_ReasonCode req = 8
      \/ rv_ReasonCode req < 0 \/ 10 < rv_ReasonCode req ->
      RevokeCertificate c req w
      = (Err (errors_Errorf "revokeCertificate 'reasonCode=%d' is invalid or not supported"
                            (rv_ReasonCode req)), w)).
Proof.
  split.
  - rewrite revocationCodeMap_lookup, !elem_of_cons, elem_of_nil. lia.
  - intros Hcode. unfold RevokeCertificate.
    destruct (revocationCodeMap !! rv_ReasonCode req) as [reason |] eqn:Hlookup;
      [| reflexivity].
    assert (Hsome : is_Some (revocationCodeMap !! rv_ReasonCode req)) by eauto.
    apply revocationCodeMap_lookup in Hsome. lia.
Qed.

(** *** GetCertificateAuthority *)

(** C3.  GetCertificateAuthority asks the remote service for the
    authority named in the request, or for the configured one when the
    request names none.  When that call fails, it returns the error,
    wrapped; when the returned chain is empty, it returns an error; and
    otherwise its result is the parse of the last element of the chain,
    whatever the earlier elements are. *)
Theorem GetCertificateAuthority_root (c : CloudCAS) (req : GetCertificateAuthorityRequest)
        (w : World) :
  let name := if bool_decide (gca_Name req = "")
              then certificateAuthority c else gca_Name req in
  let pbReq := {| gcar_Name := name |} in
  let w' := {| trace := trace w ++ [CallGetCertificateAuthority defaultContext pbReq];
               drawn := drawn w; heap := heap w |} in
  GetCertificateAuthority c req w
  = match client_GetCertificateAuthority (client c) (trace w) pbReq with
    | Err e => (Err (errors_Wrap e "cloudCAS GetCertificateAuthority failed"), w')
    | Panic msg => (Panic msg, w')
    | Ok resp =>
      match last (PemCaCertificates resp) with
      | None =>
        (Err (errors_New "cloudCAS GetCertificateAuthority: PemCACertificate should not be empty"),
         w')
      | Some pemRoot =>
        ((fun root => {| RootCertificate := root |}) <$> parseCertificate pemRoot, w')
      end
    end.
Proof.
  intros name pbReq w'. unfold GetCertificateAuthority.
  fold name. fold pbReq.
  unfold mbind at 1, M_bind, wrapM, remote. fold w'.
  destruct (client_GetCertificateAuthority (client c) (trace w) pbReq) as [resp | e | msg];
    simpl; try reflexivity.
  destruct (PemCaCertificates resp) as [| x l _] using rev_ind.
  - reflexivity.
  - rewrite last_snoc. unfold len. rewrite length_app. simpl.
    destruct (Z.eqb_spec (Z.of_nat (length l + 1)) 0) as [Hz | _]; [lia |].
    unfold mbind, M_bind, lift, index.
    destruct (Z.ltb_spec (Z.of_nat (length l + 1) - 1) 0) as [Hz | _]; [lia |].
    replace (Z.to_nat (Z.of_nat (length l + 1) - 1)) with (length l) by lia.
    rewrite list_lookup_middle by reflexivity. simpl.
    destruct (parseCertificate x); reflexivity.
Qed.

(** *** RevokeCertificate *)

(** C10.  When the reason code is mapped, the certificate is present and
    carries the correlation extension, and the value of the extension
    does not decode, RevokeCertificate returns the decoding error,
    wrapped, and leaves the world as it was: no revoke request reaches
    the remote service. *)
Theorem RevokeCertificate_undecodable (c : CloudCAS) (req : RevokeCertificateRequest)
        (w : World) (certificate : Certificate) (ext : Extension) (e : error) :
  is_Some (revocationCodeMap !! rv_ReasonCode req) ->
  rv_Certificate req = Some certificate ->
  FindCertificateAuthorityExtension certificate = Some ext ->
  asn1_Unmarshal (Value ext) = Err e ->
  RevokeCertificate c req w
  = (Err (errors_Wrap e "error unmarshaling certificate authority extension"), w).
Proof.
  intros [reason Hreason] Hcert Hfind Hdecode. unfold RevokeCertificate.
  rewrite Hreason, Hcert, Hfind, Hdecode. reflexivity.
Qed.

(** *** Validation *)

(** C4.  A CreateCertificate, RenewCertificate or
    CreateCertificateAuthority request whose template is nil or whose
    lifetime is zero fails, and the world is as it was: the remote
    service receives nothing.  The error names the missing field; for
    CreateCertificateAuthority that holds on every adapter the
    constructor returns (one built by hand without a project or a
    location fails with the error that says so). *)
Theorem validation_precedes_remote_calls (c : CloudCAS) (w : World)
        (template : option ptr) (lifetime : Z) :
  template = None \/ lifetime = 0 ->
  (forall requestID,
      CreateCertificate c {| cc_Template := template; cc_Lifetime := lifetime;
                             cc_RequestID := requestID |} w
      = (Err (errors_New
                match template with
                | None => "createCertificateRequest `template` cannot be nil"
                | Some _ => "createCertificateRequest `lifetime` cannot be 0"
                end), w))
  /\ (forall requestID,
        RenewCertificate c {| rn_Template := template; rn_Lifetime := lifetime;
                              rn_RequestID := requestID |} w
        = (Err (errors_New
                  match template with
                  | None => "renewCertificateRequest `template` cannot be nil"
                  | Some _ => "renewCertificateRequest `lifetime` cannot be 0"
                  end), w))
  /\ (forall req,
        ca_Template req = template -> ca_Lifetime req = lifetime ->
        (exists e, CreateCertificateAuthority c req w = (Err e, w))
        /\ (forall newClient opts,
              New newClient opts = Ok c ->
              CreateCertificateAuthority c req w
              = (Err (errors_New
                        match template with
                        | None => "createCertificateAuthorityRequest `template` cannot be nil"
                        | Some _ => "createCertificateAuthorityRequest `lifetime` cannot be 0"
                        end), w))).
Proof.
  intros Hmissing. split; [| split].
  - intros requestID. unfold CreateCertificate. simpl.
    destruct template as [tpl |]; [| reflexivity].
    destruct Hmissing as [| ->]; [discriminate | reflexivity].
  - intros requestID. unfold RenewCertificate. simpl.
    destruct template as [tpl |]; [| reflexivity].
    destruct Hmissing as [| ->]; [discriminate | reflexivity].
  - intros req Htemplate Hlifetime.
    assert (Hvalid :
              project c <> "" -> location c <> "" ->
              CreateCertificateAuthority c req w
              = (Err (errors_New
                        match template with
                        | None => "createCertificateAuthorityRequest `template` cannot be nil"
                        | Some _ => "createCertificateAuthorityRequest `lifetime` cannot be 0"
                        end), w)).
    { intros Hp Hl. unfold CreateCertificateAuthority.
      rewrite !bool_decide_eq_false_2 by assumption.
      rewrite Htemplate, Hlifetime.
      destruct template as [tpl |]; [| reflexivity].
      destruct Hmissing as [| ->]; [discriminate | reflexivity]. }
    split.
    + destruct (decide (project c = "")) as [Hp | Hp].
      { unfold CreateCertificateAuthority.
        rewrite bool_decide_eq_true_2 by assumption. eauto. }
      destruct (decide (location c = "")) as [Hl | Hl].
      { unfold CreateCertificateAuthority.
        rewrite bool_decide_eq_false_2 by assumption.
        rewrite bool_decide_eq_true_2 by assumption. eauto. }
      rewrite Hvalid by assumption. eauto.
    + intros newClient opts Hnew.
      apply New_project_location in Hnew as [Hp Hl]. auto.
Qed.

(** *** Renewal is re-issuance *)

Lemma CreateCertificate_valid (c : CloudCAS) (tpl : ptr) (lifetime : Z)
      (requestID : string) (w : World) :
  lifetime <> 0 ->
  CreateCertificate c {| cc_Template := Some tpl; cc_Lifetime := lifetime;
                         cc_RequestID := requestID |} w
  = let '(out, w') := createCertificate c tpl lifetime requestID w in
    ((fun r => {| cc_Certificate := r.1; cc_CertificateChain := r.2 |}) <$> out, w').
Proof.
  intros Hl. unfold CreateCertificate. simpl.
  destruct (Z.eqb_spec lifetime 0) as [| _]; [contradiction |].
  unfold mbind at 1, M_bind.
  destruct (createCertificate c tpl lifetime requestID w) as [[[cert chain] | e | msg] w'];
    reflexivity.
Qed.

Lemma RenewCertificate_valid (c : CloudCAS) (tpl : ptr) (lifetime : Z)
      (requestID : string) (w : World) :
  lifetime <> 0 ->
  RenewCertificate c {| rn_Template := Some tpl; rn_Lifetime := lifetime;
                        rn_RequestID := requestID |} w
  = let '(out, w') := createCertificate c tpl lifetime requestID w in
    ((fun r => {| rn_Certificate := r.1; rn_CertificateChain := r.2 |}) <$> out, w').
Proof.
  intros Hl. unfold RenewCertificate. simpl.
  destruct (Z.eqb_spec lifetime 0) as [| _]; [contradiction |].
  unfold mbind at 1, M_bind.
  destruct (createCertificate c tpl lifetime requestID w) as [[[cert chain] | e | msg] w'];
    reflexivity.
Qed.

Lemma renew_leaves_the_world_of_create (c : CloudCAS) (w : World)
      (template : option ptr) (lifetime : Z) (requestID : string) :
  snd (RenewCertificate c {| rn_Template := template; rn_Lifetime := lifetime;
                             rn_RequestID := requestID |} w)
  = snd (CreateCertificate c {| cc_Template := template; cc_Lifetime := lifetime;
                                cc_RequestID := requestID |} w).
Proof.
  destruct template as [tpl |]; [| reflexivity].
  destruct (decide (lifetime = 0)) as [-> | Hl]; [reflexivity |].
  rewrite CreateCertificate_valid, RenewCertificate_valid by assumption.
  destruct (createCertificate c tpl lifetime requestID w) as [out w']. reflexivity.
Qed.

(** C5.  On the same template, lifetime and request identifier, from the
    same world (so with the same fresh identifier and the same answers
    of the remote client), RenewCertificate and CreateCertificate leave
    the same world behind -- the same template, the same requests
    received by the remote service -- and end alike: both return the
    same certificate and chain, or both fail with the same error, or
    both panic alike.  Only the text of the two validation errors names
    the operation. *)
Theorem renew_is_reissue (c : CloudCAS) (w : World) (template : option ptr)
        (lifetime : Z) (requestID : string) :
  let create := CreateCertificate c {| cc_Template := template; cc_Lifetime := lifetime;
                                       cc_RequestID := requestID |} w in
  let renew := RenewCertificate c {| rn_Template := template; rn_Lifetime := lifetime;
                                     rn_RequestID := requestID |} w in
  snd renew = snd create
  /\ match fst create, fst renew with
     | Ok a, Ok b =>
       rn_Certificate b = cc_Certificate a
       /\ rn_CertificateChain b = cc_CertificateChain a
     | Err e1, Err e2 =>
       e1 = e2
       \/ (template = None
           /\ e1 = errors_New "createCertificateRequest `template` cannot be nil"
           /\ e2 = errors_New "renewCertificateRequest `template` cannot be nil")
       \/ (lifetime = 0
           /\ e1 = errors_New "createCertificateRequest `lifetime` cannot be 0"
           /\ e2 = errors_New "renewCertificateRequest `lifetime` cannot be 0")
     | Panic msg1, Panic msg2 => msg1 = msg2
     | _, _ => False
     end.
Proof.
  intros create renew. subst create renew.
  destruct template as [tpl |];
    [| simpl; split; [reflexivity | right; left; auto]].
  destruct (decide (lifetime = 0)) as [-> | Hl];
    [simpl; split; [reflexivity | right; right; auto] |].
  rewrite CreateCertificate_valid, RenewCertificate_valid by assumption.
  destruct (createCertificate c tpl lifetime requestID w) as [[[cert chain] | e | msg] w'];
    simpl; auto.
Qed.
End Operations.

(** ** Issuance *)

Section Issuance.
Context `{Externals}.

(** [createCertificate], step by step. *)
Lemma createCertificate_run (c : CloudCAS) (tpl : ptr) (lifetime : Z)
      (requestID : string) (w : World) :
  createCertificate c tpl lifetime requestID w
  = match heap w !! tpl with
    | None => (Panic nilDereference, w)
    | Some t0 =>
      let stripped := {| trace := trace w; drawn := S (drawn w);
                         heap := <[tpl := removeCAExtension t0]> (heap w) |} in
      match wrapErr "error creating certificate id"
                    (uuid_NewRandomFromReader (drawn w)) with
      | Err e => (Err e, stripped)
      | Panic msg => (Panic msg, stripped)
      | Ok id =>
        match CreateCertificateAuthorityExtension apiv1_CloudCAS id with
        | Err e => (Err e, stripped)
        | Panic msg => (Panic msg, stripped)
        | Ok ext =>
          let t := appendExtraExtension ext (removeCAExtension t0) in
          let marked := {| trace := trace w; drawn := S (drawn w);
                           heap := <[tpl := t]> (heap w) |} in
          match createCertificateConfig t with
          | Err e => (Err e, marked)
          | Panic msg => (Panic msg, marked)
          | Ok cfg =>
            let req := issueRequest c id cfg lifetime requestID in
            (cert ← wrapErr "cloudCAS CreateCertificate failed"
                            (client_CreateCertificate (client c) (trace w) req);
             getCertificateAndChain cert,
             {| trace := trace w ++ [CallCreateCertificate defaultContext req];
                drawn := S (drawn w);
                heap := <[tpl := t]> (heap w) |})
          end
        end
      end
    end.
Proof.
  unfold createCertificate, RemoveCertificateAuthorityExtension.
  unfold mbind at 1, M_bind, modify.
  destruct (heap w !! tpl) as [t0 |] eqn:Htpl; [| reflexivity].
  assert (Hlt : (tpl < length (heap w))%nat) by (eapply lookup_lt_Some; eassumption).
  unfold mbind at 1, M_bind, createCertificateID. cbn [trace drawn heap].
  destruct (uuid_NewRandomFromReader (drawn w)) as [id | e | msg]; try reflexivity.
  cbn [wrapErr]. unfold mbind at 1, M_bind, lift.
  destruct (CreateCertificateAuthorityExtension apiv1_CloudCAS id) as [ext | e | msg];
    try reflexivity.
  unfold mbind at 1, M_bind. cbn [trace drawn heap].
  rewrite list_lookup_insert_eq by assumption.
  unfold mbind at 1, M_bind, load. cbn [trace drawn heap].
  rewrite list_insert_insert_eq.
  rewrite list_lookup_insert_eq by assumption.
  unfold mbind at 1, M_bind.
  destruct (createCertificateConfig _) as [cfg | e | msg]; try reflexivity.
  cbv zeta. unfold mbind at 1, M_bind, wrapM, remote. cbn [trace drawn heap].
  destruct (client_CreateCertificate _ _ _) as [cert | e | msg]; reflexivity.
Qed.

Lemma createCertificate_answered (c : CloudCAS) (w : World) (tpl : ptr) (lifetime : Z)
      (requestID : string) (certpb : pb_Certificate) :
  issuanceAnswered c w tpl lifetime requestID certpb ->
  fst (createCertificate c tpl lifetime requestID w) = getCertificateAndChain certpb.
Proof.
  intros (t0 & id & ext & cfg & Htpl & Hid & Hext & Hcfg & Hanswer).
  rewrite createCertificate_run, Htpl, Hid. cbn [wrapErr]. rewrite Hext.
  cbv zeta. rewrite Hcfg, Hanswer. reflexivity.
Qed.

(** *** The chain of an issued certificate *)

Lemma slice_to_empty {A} : slice_to (@nil A) (len (@nil A) - 1)
                           = Panic "runtime error: slice bounds out of range".
Proof. reflexivity. Qed.

Lemma slice_to_init {A} (l : list A) (x : A) :
  slice_to (l ++ [x]) (len (l ++ [x]) - 1) = Ok l.
Proof.
  unfold slice_to, len. rewrite length_app. simpl.
  destruct (Z.ltb_spec (Z.of_nat (length l + 1) - 1) 0); [lia |].
  destruct (Z.ltb_spec (Z.of_nat (length l + 1)) (Z.of_nat (length l + 1) - 1)); [lia |].
  simpl. replace (Z.to_nat (Z.of_nat (length l + 1) - 1)) with (length l) by lia.
  rewrite take_app_length. reflexivity.
Qed.

Lemma getCertificateAndChain_trims (certpb : pb_Certificate) (leaf : Certificate)
      (pems : list string) (authority : string) (chain : list Certificate) :
  PemCertificateChain certpb = pems ++ [authority] ->
  parseCertificate (PemCertificate certpb) = Ok leaf ->
  mapM parseCertificate pems = Ok chain ->
  getCertificateAndChain certpb = Ok (leaf, chain).
Proof.
  intros Hchain Hleaf Hparsed. unfold getCertificateAndChain.
  rewrite Hleaf, Hchain. simpl. rewrite slice_to_init. simpl.
  rewrite Hparsed. reflexivity.
Qed.

Lemma getCertificateAndChain_empty (certpb : pb_Certificate) (leaf : Certificate) :
  PemCertificateChain certpb = [] ->
  parseCertificate (PemCertificate certpb) = Ok leaf ->
  getCertificateAndChain certpb = Panic "runtime error: slice bounds out of range".
Proof.
  intros Hchain Hleaf. unfold getCertificateAndChain.
  rewrite Hleaf, Hchain. reflexivity.
Qed.

(** C1.  When an issuance with a non-zero lifetime reaches the remote
    service and the service answers with a leaf and a chain whose last
    element is the authority's own certificate, CreateCertificate and
    RenewCertificate return the parsed leaf as the certificate and, as
    the chain, the parsed elements of the returned chain without the
    last one. *)
Theorem issued_chain_excludes_authority (c : CloudCAS) (w : World) (tpl : ptr)
        (lifetime : Z) (requestID : string) (certpb : pb_Certificate)
        (leaf : Certificate) (pems : list string) (authority : string)
        (chain : list Certificate) :
  lifetime <> 0 ->
  issuanceAnswered c w tpl lifetime requestID certpb ->
  PemCertificateChain certpb = pems ++ [authority] ->
  parseCertificate (PemCertificate certpb) = Ok leaf ->
  mapM parseCertificate pems = Ok chain ->
  fst (CreateCertificate c {| cc_Template := Some tpl; cc_Lifetime := lifetime;
                              cc_RequestID := requestID |} w)
  = Ok {| cc_Certificate := leaf; cc_CertificateChain := chain |}
  /\ fst (RenewCertificate c {| rn_Template := Some tpl; rn_Lifetime := lifetime;
                                rn_RequestID := requestID |} w)
     = Ok {| rn_Certificate := leaf; rn_CertificateChain := chain |}.
Proof.
  intros Hlifetime Hanswered Hchain Hleaf Hparsed.
  apply createCertificate_answered in Hanswered.
  rewrite (getCertificateAndChain_trims _ _ _ _ _ Hchain Hleaf Hparsed) in Hanswered.
  rewrite CreateCertificate_valid, RenewCertificate_valid by assumption.
  destruct (createCertificate c tpl lifetime requestID w) as [out w'].
  simpl in Hanswered. subst out. split; reflexivity.
Qed.

(** C9.  When the remote client answers with a certificate whose chain is
    empty, [getCertificateAndChain], once the leaf has parsed, slices the
    chain up to [len - 1 = -1]: it panics with a slice bound out of
    range, and so do the CreateCertificate, RenewCertificate and
    RevokeCertificate calls that received the answer -- none returns an
    error value. *)
Theorem empty_chain_panics (c : CloudCAS) (w : World) (certpb : pb_Certificate) :
  PemCertificateChain certpb = [] ->
  getCertificateAndChain certpb
  = (_ ← parseCertificate (PemCertificate certpb);
     Panic "runtime error: slice bounds out of range")
  /\ (forall leaf,
        parseCertificate (PemCertificate certpb) = Ok leaf ->
        (forall tpl lifetime requestID,
            lifetime <> 0 ->
            issuanceAnswered c w tpl lifetime requestID certpb ->
            fst (CreateCertificate c {| cc_Template := Some tpl; cc_Lifetime := lifetime;
                                        cc_RequestID := requestID |} w)
            = Panic "runtime error: slice bounds out of range"
            /\ fst (RenewCertificate c {| rn_Template := Some tpl; rn_Lifetime := lifetime;
                                          rn_RequestID := requestID |} w)
               = Panic "runtime error: slice bounds out of range")
        /\ (forall req,
              revocationAnswered c w req certpb ->
              fst (RevokeCertificate c req w)
              = Panic "runtime error: slice bounds out of range")).
Proof.
  intros Hchain. split.
  - unfold getCertificateAndChain. rewrite Hchain.
    destruct (parseCertificate (PemCertificate certpb)); reflexivity.
  - intros leaf Hleaf.
    pose proof (getCertificateAndChain_empty _ _ Hchain Hleaf) as Hpanic. split.
    + intros tpl lifetime requestID Hlifetime Hanswered.
      apply createCertificate_answered in Hanswered. rewrite Hpanic in Hanswered.
      rewrite CreateCertificate_valid, RenewCertificate_valid by assumption.
      destruct (createCertificate c tpl lifetime requestID w) as [out w'].
      simpl in Hanswered. subst out. split; reflexivity.
    + intros req (reason & certificate & ext & cae & Hreason & Hcert & Hfind & Hdecode & Hanswer).
      unfold RevokeCertificate. rewrite Hreason, Hcert, Hfind, Hdecode.
      cbn [wrapErr]. unfold mbind at 1, M_bind, lift.
      cbv zeta. unfold mbind at 1, M_bind, wrapM, remote.
      rewrite Hanswer. cbn [wrapErr]. unfold mbind at 1, M_bind, lift.
      rewrite Hpanic. reflexivity.
Qed.

(** *** Creating an authority: the template *)

Lemma keepsHeap_bind {A B} (m : M A) (f : A -> M B) :
  keepsHeap m -> (forall a, keepsHeap (f a)) -> keepsHeap (m ≫= f).
Proof.
  intros Hm Hf w. unfold mbind, M_bind. specialize (Hm w).
  destruct (m w) as [[a | e | msg] w']; simpl in *; [| assumption ..].
  rewrite Hf. assumption.
Qed.

Lemma keepsHeap_lift {A} (o : Outcome A) : keepsHeap (lift o).
Proof. intros w. reflexivity. Qed.

Lemma keepsHeap_ret {A} (a : A) : keepsHeap (mret a : M A).
Proof. intros w. reflexivity. Qed.

Lemma keepsHeap_remote {A} (ev : Event) (answer : list Event -> Outcome A) :
  keepsHeap (remote ev answer).
Proof. intros w. reflexivity. Qed.

Lemma keepsHeap_wrapM {A} (msg : string) (m : M A) : keepsHeap m -> keepsHeap (wrapM msg m).
Proof.
  intros Hm w. unfold wrapM. specialize (Hm w). destruct (m w). assumption.
Qed.

Lemma keepsHeap_createCertificateID : keepsHeap createCertificateID.
Proof. intros w. reflexivity. Qed.

Lemma keepsHeap_load (p : ptr) : keepsHeap (load p).
Proof. intros w. unfold load. destruct (heap w !! p); reflexivity. Qed.

Ltac keeps_heap :=
  repeat first
         [ apply keepsHeap_bind; [| intros ?]
         | apply keepsHeap_wrapM
         | apply keepsHeap_remote
         | apply keepsHeap_lift
         | apply keepsHeap_ret
         | apply keepsHeap_createCertificateID
         | apply keepsHeap_load ].

Lemma keepsHeap_signIntermediateCA (c : CloudCAS) (name : string)
      (req : CreateCertificateAuthorityRequest) :
  keepsHeap (signIntermediateCA c name req).
Proof.
  unfold signIntermediateCA, parentName. keeps_heap.
  destruct (ca_Parent req); keeps_heap.
Qed.

(** If CreateCertificateAuthority sent anything, its template is the one
    it was given with the correlation extension of the new authority
    appended. *)
Lemma CreateCertificateAuthority_submitted (c : CloudCAS)
      (req : CreateCertificateAuthorityRequest) (tpl : ptr) (w : World) :
  ca_Template req = Some tpl ->
  trace (snd (CreateCertificateAuthority c req w)) <> trace w ->
  exists t0 id ext,
    heap w !! tpl = Some t0
    /\ CreateCertificateAuthorityExtension apiv1_CloudCAS id = Ok ext
    /\ heap (snd (CreateCertificateAuthority c req w))
       = <[tpl := appendExtraExtension ext t0]> (heap w).
Proof.
  intros Htpl.
  destruct (CreateCertificateAuthority c req w) as [out w'] eqn:Hrun.
  cbn [snd]. intros Hsent.
  assert (Hquiet : forall (e : Outcome CreateCertificateAuthorityResponse) w1,
             trace w1 = trace w -> (e, w1) = (out, w') -> False).
  { intros e w1 Htr [= _ <-]. auto. }
  unfold CreateCertificateAuthority in Hrun. rewrite Htpl in Hrun.
  repeat match type of Hrun with
         | context [if ?b then fail _ else _] =>
           destruct b; [exfalso; exact (Hquiet _ _ eq_refl Hrun) |]
         end.
  unfold mbind at 1, M_bind, lift at 1 in Hrun.
  destruct (wrapErr _ _) as [keySpec | e | msg];
    try (exfalso; exact (Hquiet _ _ eq_refl Hrun)).
  unfold mbind at 1, M_bind in Hrun.
  set (naming := if bool_decide (normalizeCertificateAuthorityName (ca_Name req) = "")
                 then createCertificateID else mret _) in Hrun.
  assert (Hnaming : trace (snd (naming w)) = trace w /\ heap (snd (naming w)) = heap w).
  { subst naming. destruct (bool_decide _); split; reflexivity. }
  destruct (naming w) as [[id | e | msg] w1]; simpl in Hnaming; destruct Hnaming as [Htr Hheap];
    try (exfalso; exact (Hquiet _ _ Htr Hrun)).
  unfold mbind at 1, M_bind, lift at 1 in Hrun.
  destruct (CreateCertificateAuthorityExtension apiv1_CloudCAS id) as [ext | e | msg] eqn:Hext;
    try (exfalso; exact (Hquiet _ _ Htr Hrun)).
  unfold mbind at 1, M_bind, modify in Hrun. rewrite Hheap in Hrun.
  destruct (heap w !! tpl) as [t0 |] eqn:Ht0;
    try (exfalso; exact (Hquiet _ _ Htr Hrun)).
  exists t0, id, ext. repeat split; try assumption.
  match type of Hrun with
  | ?k ?w2 = _ =>
    assert (Hk : keepsHeap k);
      [| pose proof (Hk w2) as Hkw; rewrite Hrun in Hkw; exact Hkw]
  end.
  keeps_heap.
  - destruct (ca_Type req); keeps_heap.
  - destruct (isIntermediateCA (ca_Type req)); [apply keepsHeap_signIntermediateCA | keeps_heap].
  - destruct (len _ =? 0); keeps_heap.
Qed.
End Issuance.

(** ** The properties on the test double *)

Section OnTheTestDouble.
#[local] Existing Instance Stub.externals.

Lemma Stub_issuanceAnswered (lifetime : Z) (requestID : string) :
  issuanceAnswered Stub.issuing Stub.world 0%nat lifetime requestID
    (Stub.pbCertificate (Stub.pem "leaf") [Stub.pem "intermediate"; Stub.pem "authority"]).
Proof.
  exists Stub.template, "uuid-0", (Stub.casExtension "uuid-0"),
    (appendExtraExtension (Stub.casExtension "uuid-0") (removeCAExtension Stub.template)).
  repeat split.
Defined.

(** The example of the specification: the service returns the leaf with
    the chain [intermediate, authorityCert]; the response chain is
    [intermediate]. *)
Lemma issued_chain_excludes_authority_witness :
  fst (CreateCertificate Stub.issuing
         {| cc_Template := Some 0%nat; cc_Lifetime := 1; cc_RequestID := "" |} Stub.world)
  = Ok {| cc_Certificate := Stub.certificate "leaf";
          cc_CertificateChain := [Stub.certificate "intermediate"] |}
  /\ fst (RenewCertificate Stub.issuing
            {| rn_Template := Some 0%nat; rn_Lifetime := 1; rn_RequestID := "" |} Stub.world)
     = Ok {| rn_Certificate := Stub.certificate "leaf";
             rn_CertificateChain := [Stub.certificate "intermediate"] |}.
Proof.
  apply (issued_chain_excludes_authority Stub.issuing Stub.world 0%nat 1 ""
           (Stub.pbCertificate (Stub.pem "leaf")
                               [Stub.pem "intermediate"; Stub.pem "authority"])
           (Stub.certificate "leaf") [Stub.pem "intermediate"] (Stub.pem "authority")
           [Stub.certificate "intermediate"]).
  - discriminate.
  - apply Stub_issuanceAnswered.
  - reflexivity.
  - reflexivity.
  - reflexivity.
Defined.

Lemma revocation_reason_codes_witness :
  RevokeCertificate Stub.issuing
    {| rv_Certificate := Some Stub.issued; rv_ReasonCode := 7; rv_RequestID := "" |}
    Stub.world
  = (Err (errors_Errorf "revokeCertificate 'reasonCode=%d' is invalid or not supported" 7),
     Stub.world).
Proof.
  apply (proj2 (revocation_reason_codes Stub.issuing
                  {| rv_Certificate := Some Stub.issued; rv_ReasonCode := 7;
                     rv_RequestID := "" |} Stub.world)).
  left. reflexivity.
Defined.

Lemma validation_precedes_remote_calls_witness :
  CreateCertificate Stub.issuing
    {| cc_Template := None; cc_Lifetime := 1; cc_RequestID := "" |} Stub.world
  = (Err (errors_New "createCertificateRequest `template` cannot be nil"), Stub.world)
  /\ CreateCertificateAuthority Stub.issuing
       {| ca_Name := ""; ca_Type := RootCA; ca_Template := None; ca_Lifetime := 1;
          ca_Parent := None; ca_RequestID := ""; ca_CreateKey := None |} Stub.world
     = (Err (errors_New "createCertificateAuthorityRequest `template` cannot be nil"),
        Stub.world).
Proof.
  destruct (validation_precedes_remote_calls Stub.issuing Stub.world None 1
              (or_introl eq_refl)) as (Hcreate & _ & Hauthority).
  split; [exact (Hcreate "") |].
  refine (proj2 (Hauthority
                   {| ca_Name := ""; ca_Type := RootCA; ca_Template := None;
                      ca_Lifetime := 1; ca_Parent := None; ca_RequestID := "";
                      ca_CreateKey := None |} eq_refl eq_refl)
                Stub.newClient Stub.options _).
  reflexivity.
Defined.

Lemma New_requires_resource_name_witness :
  New Stub.newClient Stub.options
  = Ok {| client := client Stub.issuing;
          certificateAuthority := "projects/p/locations/l/certificateAuthorities/ca";
          project := "p"; location := "l" |}.
Proof.
  refine (proj2 (proj2 (New_requires_resource_name Stub.newClient Stub.options eq_refl))
                "p" "l" "ca" _ _ _ eq_refl);
    (split; [discriminate | reflexivity]).
Defined.

Lemma empty_chain_panics_witness :
  fst (CreateCertificate Stub.chainless
         {| cc_Template := Some 0%nat; cc_Lifetime := 1; cc_RequestID := "" |} Stub.world)
  = Panic "runtime error: slice bounds out of range"
  /\ fst (RevokeCertificate Stub.chainless
            {| rv_Certificate := Some Stub.issued; rv_ReasonCode := 1; rv_RequestID := "" |}
            Stub.world)
     = Panic "runtime error: slice bounds out of range".
Proof.
  destruct (proj2 (empty_chain_panics Stub.chainless Stub.world
                     (Stub.pbCertificate (Stub.pem "leaf") []) eq_refl)
                  (Stub.certificate "leaf") eq_refl) as (Hissue & Hrevoke).
  split.
  - refine (proj1 (Hissue 0%nat 1 "" _ _)); [discriminate |].
    exists Stub.template, "uuid-0", (Stub.casExtension "uuid-0"),
      (appendExtraExtension (Stub.casExtension "uuid-0") (removeCAExtension Stub.template)).
    repeat split.
  - apply Hrevoke.
    exists KEY_COMPROMISE, Stub.issued, (Stub.casExtension "1234"),
      {| cae_Type := 1; CertificateID := "1234" |}.
    repeat split.
Defined.

Lemma RevokeCertificate_undecodable_witness :
  RevokeCertificate Stub.issuing
    {| rv_Certificate := Some Stub.garbled; rv_ReasonCode := 1; rv_RequestID := "" |}
    Stub.world
  = (Err (errors_Wrap (errors_New "asn1: syntax error")
                      "error unmarshaling certificate authority extension"),
     Stub.world).
Proof.
  apply (RevokeCertificate_undecodable Stub.issuing
           {| rv_Certificate := Some Stub.garbled; rv_ReasonCode := 1; rv_RequestID := "" |}
           Stub.world Stub.garbled
           {| Id := oidStepCertificateAuthority; Critical := false; Value := "garbage" |}
           (errors_New "asn1: syntax error")).
  - exists KEY_COMPROMISE. reflexivity.
  - reflexivity.
  - reflexivity.
  - reflexivity.
Defined.

(** Issuing, then renewing from the same template: the template that
    already carried a stale extension, and then the extension of the
    first issuance, carries one extension when the renewal is
    submitted. *)
(** C6.  The code at the failing input.  The template of the request
    carries one correlation extension, left by an earlier issuance.
    CreateCertificateAuthority appends the extension of the new
    authority without removing the one that is there, and the create
    request goes out made from the template that carries both: the
    operation does not keep to at most one correlation extension on the
    template it submits. *)
Theorem CreateCertificateAuthority_accumulates :
  let w' := snd (CreateCertificateAuthority Stub.issuing Stub.rootRequest Stub.world) in
  heap Stub.world = [Stub.template]
  /\ countCAExtensions Stub.template = 1%nat
  /\ trace w' = [CallCreateCertificateAuthority defaultContext
                   (authorityRequest Stub.issuing Stub.rootRequest "My-CA" (0, 0)
                                     Stub.rootTemplate SELF_SIGNED);
                 OperationWait defaultInitiatorContext]
  /\ heap w' = [Stub.rootTemplate]
  /\ ExtraExtensions Stub.rootTemplate = [Stub.casExtension "stale"; Stub.casExtension "My-CA"]
  /\ countCAExtensions Stub.rootTemplate = 2%nat
  /\ ~ submitsAtMostOne (CreateCertificateAuthority Stub.issuing Stub.rootRequest) 0%nat.
Proof.
  cbv zeta. split; [reflexivity |]. split; [reflexivity |].
  split; [reflexivity |]. split; [reflexivity |]. split; [reflexivity |].
  split; [reflexivity |].
  intros Hclaim.
  assert (Htwo : (countCAExtensions Stub.rootTemplate <= 1)%nat).
  { apply (Hclaim Stub.world).
    - discriminate.
    - reflexivity. }
  vm_compute in Htwo. lia.
Qed.
End OnTheTestDouble.
(** * Further properties *)

(** ** Names and identifiers *)

Lemma containsByte_forallb (sep : ascii) (s : string) :
  containsByte sep s
  = negb (forallb (fun c => negb (Ascii.eqb c sep)) (list_ascii_of_string s)).
Proof.
  induction s as [| c s IH]; simpl; [reflexivity |].
  rewrite IH. destruct (Ascii.eqb c sep); reflexivity.
Qed.

Lemma no_slash_in_class (P : ascii -> bool) (s : string) :
  (forall c, P c = true -> c <> "/"%char) ->
  forallb P (list_ascii_of_string s) = true ->
  containsByte "/" s = false.
Proof.
  intros HP Hall. rewrite containsByte_forallb. apply negb_false_iff.
  apply forallb_forall. intros c Hc.
  apply negb_true_iff, Ascii.eqb_neq, HP.
  rewrite forallb_forall in Hall. auto.
Qed.

Lemma runes_nonempty (c : ascii) (s : string) : runes (String c s) <> [].
Proof.
  unfold runes. cbn [String.length runes_fuel].
  destruct (utf8.DecodeRuneInString (String c s)). discriminate.
Qed.

Lemma length_runes_fuel (fuel : nat) (s : string) : (length (runes_fuel fuel s) <= fuel)%nat.
Proof.
  revert s. induction fuel as [| fuel IH]; intros s; [simpl; lia |].
  cbn [runes_fuel]. destruct s as [| c s]; [simpl; lia |].
  destruct (utf8.DecodeRuneInString (String c s)) as [r width]. cbn [length].
  specialize (IH (string_drop width (String c s))). lia.
Qed.

Lemma length_list_ascii_of_string (s : string) :
  length (list_ascii_of_string s) = String.length s.
Proof. induction s as [| c s IH]; simpl; [reflexivity | rewrite IH; reflexivity]. Qed.

Lemma permitted_byte_not_slash (c : ascii) : permitted (byte_of c) -> c <> "/"%char.
Proof.
  intros Hc ->. change (byte_of "/"%char) with 47 in Hc. unfold permitted in Hc. lia.
Qed.

Lemma normalize_empty_iff (name : string) :
  normalizeCertificateAuthorityName name = "" <-> name = "".
Proof.
  split; [| intros ->; reflexivity].
  intros Hn. destruct name as [| c s]; [reflexivity |].
  apply (f_equal list_ascii_of_string) in Hn. rewrite normalize_bytes in Hn.
  pose proof (runes_nonempty c s) as Hr.
  destruct (runes (String c s)); [contradiction | discriminate].
Qed.

(** X1.  A name that is not empty normalizes to a name that is not empty
    and has no slash, and never to a longer one; so the resource name
    made of a project, a location and a normalized name is one that
    [caRegexp] accepts.  The empty name stays empty. *)
Theorem normalized_name_is_a_component (name : string) :
  (normalizeCertificateAuthorityName name = "" <-> name = "")
  /\ (String.length (normalizeCertificateAuthorityName name) <= String.length name)%nat
  /\ (name <> "" ->
      segment (normalizeCertificateAuthorityName name)
      /\ forall p l,
          segment p -> segment l ->
          regexp.MatchString caRegexp
            (("projects/" +:+ p +:+ "/locations/" +:+ l)
               +:+ "/certificateAuthorities/" +:+ normalizeCertificateAuthorityName name)
          = true).
Proof.
  pose proof (normalize_empty_iff name) as Hempty.
  split; [exact Hempty |]. split.
  - rewrite <- (length_list_ascii_of_string (normalizeCertificateAuthorityName name)).
    rewrite normalize_bytes, length_map. apply length_runes_fuel.
  - intros Hname.
    assert (Hseg : segment (normalizeCertificateAuthorityName name)).
    { split; [rewrite Hempty; assumption |].
      apply (no_slash_in_class (fun c => bool_decide (c <> "/"%char))).
      - intros c Hc. apply bool_decide_eq_true_1 in Hc. assumption.
      - rewrite normalize_bytes. apply forallb_forall. intros c Hc.
        apply in_map_iff in Hc as (r & <- & _).
        apply bool_decide_eq_true_2, permitted_byte_not_slash.
        pose proof (normalizeRune_image r) as Hp.
        rewrite byte_of_ascii_of by (apply permitted_range in Hp; lia). assumption. }
    split; [exact Hseg |].
    intros p l Hp Hl. apply caRegexp_MatchString.
    exists p, l, (normalizeCertificateAuthorityName name).
    split; [exact Hp |]. split; [exact Hl |]. split; [exact Hseg |].
    unfold resourceName. rewrite !append_assoc. reflexivity.
Qed.

Lemma normalized_name_is_a_component_witness :
  regexp.MatchString caRegexp
    (("projects/" +:+ "p" +:+ "/locations/" +:+ "l")
       +:+ "/certificateAuthorities/" +:+ normalizeCertificateAuthorityName "My CA/1")
  = true.
Proof.
  refine (proj2 (proj2 (proj2 (normalized_name_is_a_component "My CA/1")) _) "p" "l" _ _).
  - discriminate.
  - split; [discriminate | reflexivity].
  - split; [discriminate | reflexivity].
Defined.

(** X2.  Normalizing leaves a name as it is exactly when every byte of
    the name is in [A-Za-z0-9_-]. *)
Theorem normalize_fixes_permitted_names (name : string) :
  normalizeCertificateAuthorityName name = name
  <-> Forall (fun c => permitted (byte_of c)) (list_ascii_of_string name).
Proof.
  split.
  - intros Hfix. rewrite <- Hfix, normalize_bytes.
    induction (runes name) as [| r rs IH]; constructor; [| exact IH].
    pose proof (normalizeRune_image r) as Hp.
    rewrite byte_of_ascii_of by (apply permitted_range in Hp; lia). assumption.
  - intros Hall.
    rewrite <- (string_of_list_ascii_of_string (normalizeCertificateAuthorityName name)).
    rewrite <- (string_of_list_ascii_of_string name) at 2. f_equal.
    rewrite normalize_bytes.
    rewrite <- (string_of_list_ascii_of_string name) at 1.
    rewrite runes_of_ascii.
    + rewrite map_map. induction Hall as [| c l Hc _ IH]; [reflexivity |].
      simpl. rewrite normalizeRune_permitted, ascii_of_byte_of by assumption.
      f_equal. exact IH.
    + induction Hall as [| c l Hc _ IH]; constructor; [| exact IH].
      apply permitted_range in Hc. lia.
Qed.

(** ** The service's own grammar *)

Lemma class_not_slash (c : ascii) :
  isLower c || isUpper c || isDigit c || isHyphen c || isUnderscore c = true ->
  c <> "/"%char.
Proof. intros Hc ->. vm_compute in Hc. discriminate. Qed.

Lemma strictLocation_segment (l : string) : strictLocation l = true -> segment l.
Proof.
  unfold strictLocation. intros Hl. apply andb_true_iff in Hl as [Hne Hall]. split.
  - apply negb_true_iff, bool_decide_eq_false_1 in Hne. assumption.
  - eapply no_slash_in_class; [| exact Hall].
    intros c Hc. apply class_not_slash. cbv beta in Hc.
    destruct (isLower c), (isDigit c), (isHyphen c), (isUpper c); try discriminate; reflexivity.
Qed.

Lemma strictAuthority_segment (a : string) : strictAuthority a = true -> segment a.
Proof.
  unfold strictAuthority. intros Ha. apply andb_true_iff in Ha as [Hne Hall]. split.
  - apply negb_true_iff, bool_decide_eq_false_1 in Hne. assumption.
  - eapply no_slash_in_class; [| exact Hall]. apply class_not_slash.
Qed.

Lemma strictProject_segment (p : string) : strictProject p = true -> segment p.
Proof.
  unfold strictProject. intros Hp.
  destruct (list_ascii_of_string p) as [| c0 rest] eqn:Hbytes; [discriminate |].
  apply andb_true_iff in Hp as [Hc0 Hrest].
  destruct (reverse rest) as [| cN middle] eqn:Hrev; [discriminate |].
  apply andb_true_iff in Hrest as [Hrest Hmiddle].
  apply andb_true_iff in Hrest as [Hrest _].
  apply andb_true_iff in Hrest as [HcN _].
  split.
  - intros ->. discriminate.
  - apply (no_slash_in_class
             (fun c => isLower c || isUpper c || isDigit c || isHyphen c || isUnderscore c));
      [apply class_not_slash |].
    rewrite Hbytes. simpl. rewrite Hc0. simpl.
    rewrite <- (reverse_involutive rest), Hrev, reverse_cons.
    rewrite forallb_app. simpl.
    apply andb_true_iff. split.
    + apply forallb_forall. intros c Hc.
      apply (proj2 (list_elem_of_In _ _)) in Hc.
      apply (proj1 (elem_of_reverse _ _)) in Hc.
      apply (proj1 (list_elem_of_In _ _)) in Hc.
      rewrite forallb_forall in Hmiddle.
      specialize (Hmiddle c Hc). cbv beta in Hmiddle.
      destruct (isLower c), (isDigit c), (isHyphen c), (isUpper c); try discriminate; reflexivity.
    + destruct (isLower cN), (isDigit cN), (isUpper cN); try discriminate; reflexivity.
Qed.

(** X3.  [caRegexp] is the more flexible expression, as the source says:
    it accepts every identifier that the expression of the service
    accepts. *)
Theorem caRegexp_accepts_service_grammar (p l a : string) :
  strictProject p = true -> strictLocation l = true -> strictAuthority a = true ->
  regexp.MatchString caRegexp (resourceName p l a) = true.
Proof.
  intros Hp Hl Ha. apply caRegexp_MatchString. exists p, l, a.
  auto using strictProject_segment, strictLocation_segment, strictAuthority_segment.
Qed.

Lemma caRegexp_accepts_service_grammar_witness :
  regexp.MatchString caRegexp (resourceName "my-project-1" "us-west1" "Step_CA-1") = true.
Proof.
  apply caRegexp_accepts_service_grammar; reflexivity.
Defined.

(** ** The constructor: what every adapter satisfies *)

Section ConstructorMore.
Context `{Externals}.
Variable newClient : string -> Outcome CertificateAuthorityClient.

(** X4.  Every adapter [New] returns has a project and a location that
    are not empty, holds the client made for the credentials file and the
    identifier of the options unchanged; for a creator the project and
    location are those of the options, and otherwise the identifier is a
    resource name. *)
Theorem New_invariant (opts : Options) (c : CloudCAS) :
  New newClient opts = Ok c ->
  project c <> "" /\ location c <> ""
  /\ certificateAuthority c = CertificateAuthority opts
  /\ newClient (CredentialsFile opts) = Ok (client c)
  /\ (IsCreator opts = true ->
      project c = Project opts /\ location c = Location opts)
  /\ (IsCreator opts = false -> isResourceName (certificateAuthority c)).
Proof.
  intros Hnew.
  destruct (New_project_location newClient opts c Hnew) as [Hp Hl].
  split; [exact Hp |]. split; [exact Hl |].
  destruct (IsCreator opts) eqn:Hcreator.
  - unfold New in Hnew. rewrite Hcreator in Hnew.
    destruct (bool_decide (Project opts = "")); [discriminate |].
    destruct (bool_decide (Location opts = "")); [discriminate |].
    simpl in Hnew. destruct (newClient (CredentialsFile opts)) as [cl | |]; [| discriminate ..].
    injection Hnew as <-. simpl. repeat split; discriminate.
  - destruct (regexp.MatchString caRegexp (CertificateAuthority opts)) eqn:Hmatch.
    + pose proof Hmatch as Hname. apply caRegexp_MatchString in Hname.
      destruct Hname as (p & l & a & Hsp & Hsl & Hsa & Hname).
      rewrite (New_resourceName newClient opts p l a) in Hnew by assumption.
      destruct (newClient (CredentialsFile opts)) as [cl | |]; [| discriminate ..].
      injection Hnew as <-. simpl. repeat split; try discriminate.
      intros _. exists p, l, a. auto.
    + unfold New in Hnew. rewrite Hcreator, Hmatch in Hnew.
      destruct (bool_decide _); discriminate.
Qed.
End ConstructorMore.

(** ** Chains, revocation and failed issuance *)

Section OperationsMore.
Context `{Externals}.

(** X5.  [getCertificateAndChain] never parses the last element of the
    chain: on a chain [pems ++ [last]] its outcome is the leaf and the
    parsed [pems], in order, or the first error met while parsing the
    leaf and then [pems]; [last] does not matter. *)
Theorem getCertificateAndChain_ignores_last (certpb : pb_Certificate)
        (pems : list string) (last : string) :
  PemCertificateChain certpb = pems ++ [last] ->
  getCertificateAndChain certpb
  = (cert ← parseCertificate (PemCertificate certpb);
     chain ← mapM parseCertificate pems;
     Ok (cert, chain)).
Proof.
  intros Hchain. unfold getCertificateAndChain. rewrite Hchain.
  destruct (parseCertificate (PemCertificate certpb)); [| reflexivity ..].
  simpl. rewrite slice_to_init. reflexivity.
Qed.

(** X6.  With a mapped reason code, RevokeCertificate fails without
    sending anything when the request has no certificate, and when the
    certificate carries no correlation extension (it was not issued by
    this backend). *)
Theorem RevokeCertificate_requires_correlation (c : CloudCAS)
        (req : RevokeCertificateRequest) (w : World) :
  is_Some (revocationCodeMap !! rv_ReasonCode req) ->
  (rv_Certificate req = None ->
   RevokeCertificate c req w
   = (Err (errors_New "revokeCertificateRequest `certificate` cannot be nil"), w))
  /\ (forall certificate,
        rv_Certificate req = Some certificate ->
        FindCertificateAuthorityExtension certificate = None ->
        RevokeCertificate c req w
        = (Err (errors_New "error revoking certificate: certificate authority extension was not found"),
           w)).
Proof.
  intros [reason Hreason]. unfold RevokeCertificate. rewrite Hreason. split.
  - intros ->. reflexivity.
  - intros certificate -> ->. reflexivity.
Qed.

Lemma RevokeCertificate_answered (c : CloudCAS) (w : World)
      (req : RevokeCertificateRequest)
      (reason : RevocationReason) (certificate : Certificate) (ext : Extension)
      (cae : CertificateAuthorityExtension) :
  revocationCodeMap !! rv_ReasonCode req = Some reason ->
  rv_Certificate req = Some certificate ->
  FindCertificateAuthorityExtension certificate = Some ext ->
  asn1_Unmarshal (Value ext) = Ok cae ->
  RevokeCertificate c req w
  = let pbReq := revokeRequest c cae reason (rv_RequestID req) in
    ((fun r => {| rv_ResponseCertificate := r.1; rv_CertificateChain := r.2 |})
       <$> (certpb ← wrapErr "cloudCAS RevokeCertificate failed"
                             (client_RevokeCertificate (client c) (trace w) pbReq);
            getCertificateAndChain certpb),
     {| trace := trace w ++ [CallRevokeCertificate defaultContext pbReq];
        drawn := drawn w; heap := heap w |}).
Proof.
  intros Hreason Hcert Hfind Hdecode. unfold RevokeCertificate.
  rewrite Hreason, Hcert, Hfind, Hdecode. cbn [wrapErr].
  unfold mbind at 1, M_bind, lift. cbv zeta.
  unfold mbind at 1, M_bind, wrapM, remote.
  destruct (client_RevokeCertificate _ _ _) as [pb | e | msg]; try reflexivity.
  cbn [wrapErr]. unfold mbind, M_bind, Outcome_bind, lift.
  destruct (getCertificateAndChain pb) as [[cert chain] | e | msg]; reflexivity.
Qed.

(** X7.  A revocation that the remote service answers sends exactly one
    request, under the short deadline: the certificate is addressed as
    [{authority}/certificates/{id}], with the identifier of its
    correlation extension, the mapped reason and the request identifier
    of the caller.  The response is the parsed leaf and the parsed chain
    of the answer without its last element. *)
Theorem RevokeCertificate_addresses_by_identifier (c : CloudCAS) (w : World)
        (req : RevokeCertificateRequest) (certpb : pb_Certificate)
        (reason : RevocationReason) (certificate : Certificate) (ext : Extension)
        (cae : CertificateAuthorityExtension)
        (leaf : Certificate) (pems : list string) (last : string)
        (chain : list Certificate) :
  revocationCodeMap !! rv_ReasonCode req = Some reason ->
  rv_Certificate req = Some certificate ->
  FindCertificateAuthorityExtension certificate = Some ext ->
  asn1_Unmarshal (Value ext) = Ok cae ->
  client_RevokeCertificate (client c) (trace w)
    {| rcr_Name := certificateAuthority c +:+ "/certificates/" +:+ CertificateID cae;
       rcr_Reason := reason; rcr_RequestId := rv_RequestID req |} = Ok certpb ->
  PemCertificateChain certpb = pems ++ [last] ->
  parseCertificate (PemCertificate certpb) = Ok leaf ->
  mapM parseCertificate pems = Ok chain ->
  RevokeCertificate c req w
  = (Ok {| rv_ResponseCertificate := leaf; rv_CertificateChain := chain |},
     {| trace := trace w ++
                 [CallRevokeCertificate defaultContext
                    {| rcr_Name := certificateAuthority c +:+ "/certificates/"
                                   +:+ CertificateID cae;
                       rcr_Reason := reason; rcr_RequestId := rv_RequestID req |}];
        drawn := drawn w; heap := heap w |}).
Proof.
  intros Hreason Hcert Hfind Hdecode Hanswer Hchain Hleaf Hparsed.
  rewrite (RevokeCertificate_answered c w req reason certificate ext cae)
    by assumption.
  cbv zeta. unfold revokeRequest. rewrite Hanswer. cbn [wrapErr].
  unfold mbind, Outcome_bind.
  rewrite (getCertificateAndChain_trims _ _ _ _ _ Hchain Hleaf Hparsed). reflexivity.
Qed.

(** X8.  RevokeCertificate never changes a template and never draws an
    identifier, and it sends at most one request, a revoke request under
    the short deadline. *)
Theorem RevokeCertificate_is_read_only (c : CloudCAS) (req : RevokeCertificateRequest)
        (w : World) :
  let w' := snd (RevokeCertificate c req w) in
  heap w' = heap w /\ drawn w' = drawn w
  /\ (trace w' = trace w
      \/ exists pbReq, trace w' = trace w ++ [CallRevokeCertificate defaultContext pbReq]).
Proof.
  intros w'. subst w'.
  destruct (revocationCodeMap !! rv_ReasonCode req) as [reason |] eqn:Hreason;
    [| unfold RevokeCertificate; rewrite Hreason; simpl; auto].
  destruct (rv_Certificate req) as [certificate |] eqn:Hcert;
    [| unfold RevokeCertificate; rewrite Hreason, Hcert; simpl; auto].
  destruct (FindCertificateAuthorityExtension certificate) as [ext |] eqn:Hfind;
    [| unfold RevokeCertificate; rewrite Hreason, Hcert, Hfind; simpl; auto].
  destruct (asn1_Unmarshal (Value ext)) as [cae | e | msg] eqn:Hdecode;
    [| unfold RevokeCertificate; rewrite Hreason, Hcert, Hfind, Hdecode; simpl; auto ..].
  rewrite (RevokeCertificate_answered c w req reason certificate ext cae) by assumption.
  simpl. eauto.
Qed.

(** X9.  When no identifier can be drawn, CreateCertificate and
    RenewCertificate return the error, wrapped, and send nothing; the
    template is by then what [RemoveCertificateAuthorityExtension] made
    of it (the template without its first correlation extension, when it
    had one) and has no new extension.  When the remote call fails, they
    return its error, wrapped; the request is the only one sent, and the
    template stays as it was submitted, with the new extension after
    what the removal left. *)
Theorem failed_issuance (c : CloudCAS) (w : World) (tpl : ptr) (t0 : Certificate)
        (lifetime : Z) (requestID : string) (e : error) :
  lifetime <> 0 ->
  heap w !! tpl = Some t0 ->
  (uuid_NewRandomFromReader (drawn w) = Err e ->
   CreateCertificate c {| cc_Template := Some tpl; cc_Lifetime := lifetime;
                          cc_RequestID := requestID |} w
   = (Err (errors_Wrap e "error creating certificate id"),
      {| trace := trace w; drawn := S (drawn w);
         heap := <[tpl := removeCAExtension t0]> (heap w) |})
   /\ RenewCertificate c {| rn_Template := Some tpl; rn_Lifetime := lifetime;
                            rn_RequestID := requestID |} w
      = (Err (errors_Wrap e "error creating certificate id"),
         {| trace := trace w; drawn := S (drawn w);
            heap := <[tpl := removeCAExtension t0]> (heap w) |}))
  /\ (forall id ext cfg,
        uuid_NewRandomFromReader (drawn w) = Ok id ->
        CreateCertificateAuthorityExtension apiv1_CloudCAS id = Ok ext ->
        createCertificateConfig (appendExtraExtension ext (removeCAExtension t0)) = Ok cfg ->
        client_CreateCertificate (client c) (trace w)
                                 (issueRequest c id cfg lifetime requestID) = Err e ->
        let w' := {| trace := trace w ++
                              [CallCreateCertificate defaultContext
                                 (issueRequest c id cfg lifetime requestID)];
                     drawn := S (drawn w);
                     heap := <[tpl := appendExtraExtension ext (removeCAExtension t0)]>
                               (heap w) |} in
        CreateCertificate c {| cc_Template := Some tpl; cc_Lifetime := lifetime;
                               cc_RequestID := requestID |} w
        = (Err (errors_Wrap e "cloudCAS CreateCertificate failed"), w')
        /\ RenewCertificate c {| rn_Template := Some tpl; rn_Lifetime := lifetime;
                                 rn_RequestID := requestID |} w
           = (Err (errors_Wrap e "cloudCAS CreateCertificate failed"), w')).
Proof.
  intros Hlifetime Htpl. split.
  - intros Hid.
    rewrite CreateCertificate_valid, RenewCertificate_valid by assumption.
    rewrite createCertificate_run, Htpl, Hid. split; reflexivity.
  - intros id ext cfg Hid Hext Hcfg Hanswer w'.
    rewrite CreateCertificate_valid, RenewCertificate_valid by assumption.
    rewrite createCertificate_run, Htpl, Hid. cbn [wrapErr]. rewrite Hext.
    cbv zeta. rewrite Hcfg, Hanswer. split; reflexivity.
Qed.
End OperationsMore.

(** ** Protocols: what each operation sends, and in what order *)

Section Protocols.
Context `{Externals}.

Lemma follows_ret {A} (a : A) : follows (mret a : M A) [].
Proof. intros w. exists (@nil Event). split; [simpl; rewrite app_nil_r; reflexivity | reflexivity]. Qed.

Lemma follows_lift {A} (o : Outcome A) : follows (lift o) [].
Proof.
  intros w. exists (@nil Event). split; [simpl; rewrite app_nil_r; reflexivity |].
  destruct o; simpl; reflexivity.
Qed.

Lemma follows_fail {A} (e : error) (protocol : list (EventKind * Z)) :
  follows (fail e : M A) protocol.
Proof.
  intros w. exists (@nil Event). split; [simpl; rewrite app_nil_r; reflexivity | apply prefix_nil].
Qed.

Lemma follows_panic {A} (msg : string) (protocol : list (EventKind * Z)) :
  follows (lift (Panic msg) : M A) protocol.
Proof.
  intros w. exists (@nil Event). split; [simpl; rewrite app_nil_r; reflexivity | apply prefix_nil].
Qed.

Lemma follows_remote {A} (ev : Event) (answer : list Event -> Outcome A) :
  follows (remote ev answer) [shape ev].
Proof.
  intros w. exists [ev]. split; [reflexivity |].
  unfold remote. simpl. destruct (answer (trace w)); simpl; reflexivity.
Qed.

Lemma follows_wrapM {A} (msg : string) (m : M A) (protocol : list (EventKind * Z)) :
  follows m protocol -> follows (wrapM msg m) protocol.
Proof.
  intros Hm w. destruct (Hm w) as (sent & Htrace & Hshape). exists sent.
  unfold wrapM. destruct (m w) as [[a | e | msg'] w']; simpl in *; auto.
Qed.

Lemma follows_createCertificateID : follows createCertificateID [].
Proof.
  intros w. exists (@nil Event). split; [simpl; rewrite app_nil_r; reflexivity |].
  unfold createCertificateID. simpl.
  destruct (uuid_NewRandomFromReader (drawn w)); simpl; reflexivity.
Qed.

Lemma follows_load (p : ptr) : follows (load p) [].
Proof.
  intros w. exists (@nil Event). unfold load.
  destruct (heap w !! p); (split; [simpl; rewrite app_nil_r; reflexivity | simpl; reflexivity]).
Qed.

Lemma follows_modify (p : ptr) (f : Certificate -> Certificate) : follows (modify p f) [].
Proof.
  intros w. exists (@nil Event). unfold modify.
  destruct (heap w !! p); (split; [simpl; rewrite app_nil_r; reflexivity | simpl; reflexivity]).
Qed.

Lemma follows_bind {A B} (m : M A) (f : A -> M B) (p1 p2 : list (EventKind * Z)) :
  follows m p1 -> (forall a, follows (f a) p2) -> follows (m ≫= f) (p1 ++ p2).
Proof.
  intros Hm Hf w. destruct (Hm w) as (sent1 & Htrace1 & Hshape1).
  unfold mbind, M_bind.
  destruct (m w) as [[a | e | msg] w1]; simpl in *.
  - destruct (Hf a w1) as (sent2 & Htrace2 & Hshape2).
    exists (sent1 ++ sent2). split.
    + rewrite Htrace2, Htrace1. symmetry. apply app_assoc.
    + rewrite fmap_app, Hshape1.
      destruct (fst (f a w1)); [rewrite Hshape2; reflexivity | apply prefix_app; assumption ..].
  - exists sent1. split; [assumption | apply prefix_app_r; assumption].
  - exists sent1. split; [assumption | apply prefix_app_r; assumption].
Qed.

Lemma follows_extends {A} (m : M A) (protocol : list (EventKind * Z)) :
  follows m protocol -> forall w, exists sent, trace (snd (m w)) = trace w ++ sent.
Proof. intros Hm w. destruct (Hm w) as (sent & Htrace & _). eauto. Qed.

Lemma follows_createCertificate (c : CloudCAS) (tpl : ptr) (lifetime : Z)
      (requestID : string) :
  follows (createCertificate c tpl lifetime requestID) [(KCreateCertificate, defaultContext)].
Proof.
  unfold createCertificate, RemoveCertificateAuthorityExtension.
  apply (follows_bind _ _ [] _); [apply follows_modify | intros _].
  apply (follows_bind _ _ [] _); [apply follows_createCertificateID | intros id].
  apply (follows_bind _ _ [] _); [apply follows_lift | intros ext].
  apply (follows_bind _ _ [] _); [apply follows_modify | intros _].
  apply (follows_bind _ _ [] _); [apply follows_load | intros t].
  apply (follows_bind _ _ [] _); [apply follows_lift | intros cfg].
  apply (follows_bind _ _ [_] []); [apply follows_wrapM, follows_remote | intros cert].
  apply follows_lift.
Qed.

Lemma follows_signIntermediateCA (c : CloudCAS) (name : string)
      (req : CreateCertificateAuthorityRequest) :
  follows (signIntermediateCA c name req) handshakeProtocol.
Proof.
  unfold signIntermediateCA, handshakeProtocol.
  apply (follows_bind _ _ [] _); [apply follows_createCertificateID | intros id].
  apply (follows_bind _ _ [_] _); [apply follows_wrapM, follows_remote | intros csr].
  apply (follows_bind _ _ [] _).
  { unfold parentName. destruct (ca_Parent req); [apply follows_ret | apply follows_panic]. }
  intros parent.
  apply (follows_bind _ _ [_] _); [apply follows_wrapM, follows_remote | intros sign].
  apply (follows_bind _ _ [_] [_]); [apply follows_wrapM, follows_remote | intros resp].
  apply follows_wrapM, follows_remote.
Qed.

Lemma follows_decodeAuthority (ca : pb_CertificateAuthority) :
  follows (if len (PemCaCertificates ca) =? 0 then
             fail (errors_New "cloudCAS CreateCertificateAuthority failed: PemCaCertificates is empty")
           else
             cert ← lift (pemCert ← index (PemCaCertificates ca) 0; parseCertificate pemCert);
             chain ← lift (mapM parseCertificate (drop 1 (PemCaCertificates ca)));
             mret {| ca_ResponseName := pba_Name ca;
                     ca_Certificate := cert;
                     ca_CertificateChain := chain |}) [].
Proof.
  destruct (len (PemCaCertificates ca) =? 0); [apply follows_fail |].
  apply (follows_bind _ _ [] _); [apply follows_lift | intros cert].
  apply (follows_bind _ _ [] _); [apply follows_lift | intros chain].
  apply follows_ret.
Qed.

Lemma follows_awaitAuthority (c : CloudCAS) (req : CreateCertificateAuthorityRequest)
      (pbReq : pb_CreateCertificateAuthorityRequest) :
  follows (awaitAuthority c req pbReq) (authorityProtocol (ca_Type req)).
Proof.
  unfold awaitAuthority, authorityProtocol, rootProtocol.
  destruct (isIntermediateCA (ca_Type req)).
  - apply (follows_bind _ _ [_] _); [apply follows_wrapM, follows_remote | intros resp].
    apply (follows_bind _ _ [_] _); [apply follows_wrapM, follows_remote | intros ca].
    apply (follows_bind _ _ handshakeProtocol []);
      [apply follows_signIntermediateCA | intros ca'].
    apply follows_decodeAuthority.
  - apply (follows_bind _ _ [_] _); [apply follows_wrapM, follows_remote | intros resp].
    apply (follows_bind _ _ [_] []); [apply follows_wrapM, follows_remote | intros ca].
    apply (follows_bind _ _ [] []); [apply follows_ret | intros ca'].
    apply follows_decodeAuthority.
Qed.

(** [CreateCertificateAuthority], step by step, up to the first request. *)
Lemma CreateCertificateAuthority_run (c : CloudCAS)
      (req : CreateCertificateAuthorityRequest) (w : World) :
  CreateCertificateAuthority c req w
  = if bool_decide (project c = "") then
      (Err (errors_New "cloudCAS `project` cannot be empty"), w)
    else if bool_decide (location c = "") then
      (Err (errors_New "cloudCAS `location` cannot be empty"), w)
    else match ca_Template req with
    | None =>
      (Err (errors_New "createCertificateAuthorityRequest `template` cannot be nil"), w)
    | Some tpl =>
    if ca_Lifetime req =? 0 then
      (Err (errors_New "createCertificateAuthorityRequest `lifetime` cannot be 0"), w)
    else if isIntermediateCA (ca_Type req) && bool_decide (ca_Parent req = None) then
      (Err (errors_New "createCertificateAuthorityRequest `parent` cannot be nil"), w)
    else if isIntermediateCA (ca_Type req)
            && bool_decide (ca_ResponseName <$> ca_Parent req = Some "") then
      (Err (errors_New "createCertificateAuthorityRequest `parent.name` cannot be empty"), w)
    else
    match wrapErr "createCertificateAuthorityRequest `createKey` is not valid"
                  match ca_CreateKey req with
                  | None => createKeyVersionSpec 0 0
                  | Some k => createKeyVersionSpec (SignatureAlgorithm k) (Bits k)
                  end with
    | Err e => (Err e, w)
    | Panic msg => (Panic msg, w)
    | Ok keySpec =>
      match authorityID req w with
      | (Err e, w1) => (Err e, w1)
      | (Panic msg, w1) => (Panic msg, w1)
      | (Ok id, w1) =>
        match CreateCertificateAuthorityExtension apiv1_CloudCAS id with
        | Err e => (Err e, w1)
        | Panic msg => (Panic msg, w1)
        | Ok ext =>
          match heap w1 !! tpl with
          | None => (Panic nilDereference, w1)
          | Some t0 =>
            let t := appendExtraExtension ext t0 in
            let w2 := {| trace := trace w1; drawn := drawn w1;
                         heap := <[tpl := t]> (heap w1) |} in
            match ca_Type req with
            | RootCA =>
              awaitAuthority c req (authorityRequest c req id keySpec t SELF_SIGNED) w2
            | IntermediateCA =>
              awaitAuthority c req (authorityRequest c req id keySpec t SUBORDINATE) w2
            | otherCAType code =>
              (Err (errors_Errorf
                      "createCertificateAuthorityRequest `type=%d' is invalid or not supported"
                      code), w2)
            end
          end
        end
      end
    end
    end.
Proof.
  unfold CreateCertificateAuthority.
  destruct (bool_decide (project c = "")); [reflexivity |].
  destruct (bool_decide (location c = "")); [reflexivity |].
  destruct (ca_Template req) as [tpl |]; [| reflexivity].
  destruct (ca_Lifetime req =? 0); [reflexivity |].
  destruct (isIntermediateCA (ca_Type req) && bool_decide (ca_Parent req = None));
    [reflexivity |].
  destruct (isIntermediateCA (ca_Type req)
            && bool_decide (ca_ResponseName <$> ca_Parent req = Some "")); [reflexivity |].
  unfold mbind at 1, M_bind, lift at 1.
  destruct (wrapErr _ _) as [keySpec | e | msg]; [| reflexivity ..].
  unfold mbind at 1, M_bind. fold (authorityID req).
  destruct (authorityID req w) as [[id | e | msg] w1]; [| reflexivity ..].
  unfold mbind at 1, M_bind, lift at 1.
  destruct (CreateCertificateAuthorityExtension apiv1_CloudCAS id) as [ext | e | msg];
    [| reflexivity ..].
  unfold mbind at 1, M_bind, modify.
  destruct (heap w1 !! tpl) as [t0 |] eqn:Ht0; [| reflexivity].
  assert (Hlt : (tpl < length (heap w1))%nat) by (eapply lookup_lt_Some; eassumption).
  unfold mbind at 1, M_bind, load. cbn [heap trace drawn].
  rewrite list_lookup_insert_eq by assumption.
  unfold mbind at 1, M_bind. unfold awaitAuthority.
  destruct (ca_Type req); reflexivity.
Qed.

Lemma authorityID_run (req : CreateCertificateAuthorityRequest) (w : World) :
  authorityID req w
  = if bool_decide (ca_Name req = "") then
      (wrapErr "error creating certificate id" (uuid_NewRandomFromReader (drawn w)),
       {| trace := trace w; drawn := S (drawn w); heap := heap w |})
    else (Ok (normalizeCertificateAuthorityName (ca_Name req)), w).
Proof.
  unfold authorityID. cbv zeta.
  destruct (decide (ca_Name req = "")) as [Hname | Hname].
  - rewrite Hname. reflexivity.
  - rewrite (bool_decide_eq_false_2 (ca_Name req = "")) by assumption.
    rewrite bool_decide_eq_false_2; [reflexivity |].
    intros Hn. apply (proj1 (normalize_empty_iff _)) in Hn. contradiction.
Qed.

Lemma authorityID_world (req : CreateCertificateAuthorityRequest) (w : World) :
  trace (snd (authorityID req w)) = trace w /\ heap (snd (authorityID req w)) = heap w.
Proof. rewrite authorityID_run. destruct (bool_decide _); split; reflexivity. Qed.

Lemma follows_CreateCertificateAuthority (c : CloudCAS)
      (req : CreateCertificateAuthorityRequest) :
  follows (CreateCertificateAuthority c req) (authorityProtocol (ca_Type req)).
Proof.
  intros w. rewrite CreateCertificateAuthority_run.
  assert (Hquiet : forall (out : Outcome CreateCertificateAuthorityResponse) w1,
             trace w1 = trace w ->
             match out with Ok _ => False | _ => True end ->
             exists sent,
               trace (snd (out, w1)) = trace w ++ sent
               /\ match fst (out, w1) with
                  | Ok _ => shape <$> sent = authorityProtocol (ca_Type req)
                  | _ => shape <$> sent `prefix_of` authorityProtocol (ca_Type req)
                  end).
  { intros out w1 Htrace Hout. exists []. simpl. rewrite app_nil_r.
    split; [assumption |]. destruct out; [contradiction | apply prefix_nil ..]. }
  destruct (bool_decide (project c = "")); [apply Hquiet; auto |].
  destruct (bool_decide (location c = "")); [apply Hquiet; auto |].
  destruct (ca_Template req) as [tpl |]; [| apply Hquiet; auto].
  destruct (ca_Lifetime req =? 0); [apply Hquiet; auto |].
  destruct (isIntermediateCA (ca_Type req) && bool_decide (ca_Parent req = None));
    [apply Hquiet; auto |].
  destruct (isIntermediateCA (ca_Type req)
            && bool_decide (ca_ResponseName <$> ca_Parent req = Some ""));
    [apply Hquiet; auto |].
  destruct (wrapErr _ _) as [keySpec | e | msg]; [| apply Hquiet; auto ..].
  destruct (authorityID_world req w) as [Htrace1 _].
  destruct (authorityID req w) as [[id | e | msg] w1]; simpl in Htrace1;
    [| apply Hquiet; auto ..].
  destruct (CreateCertificateAuthorityExtension apiv1_CloudCAS id) as [ext | e | msg];
    [| apply Hquiet; auto ..].
  destruct (heap w1 !! tpl) as [t0 |]; [| apply Hquiet; auto].
  cbv zeta.
  destruct (ca_Type req) eqn:Htype.
  - destruct (follows_awaitAuthority c req
                (authorityRequest c req id keySpec (appendExtraExtension ext t0) SELF_SIGNED)
                {| trace := trace w1; drawn := drawn w1;
                   heap := <[tpl := appendExtraExtension ext t0]> (heap w1) |})
      as (sent & Hsent & Hshape).
    rewrite Htype in Hshape. exists sent. split; [| exact Hshape].
    rewrite Hsent. simpl. rewrite Htrace1. reflexivity.
  - destruct (follows_awaitAuthority c req
                (authorityRequest c req id keySpec (appendExtraExtension ext t0) SUBORDINATE)
                {| trace := trace w1; drawn := drawn w1;
                   heap := <[tpl := appendExtraExtension ext t0]> (heap w1) |})
      as (sent & Hsent & Hshape).
    rewrite Htype in Hshape. exists sent. split; [| exact Hshape].
    rewrite Hsent. simpl. rewrite Htrace1. reflexivity.
  - apply Hquiet; auto.
Qed.

(** X10.  Each operation follows its protocol.  GetCertificateAuthority,
    CreateCertificate, RenewCertificate and RevokeCertificate send one
    request, under the short deadline.  CreateCertificateAuthority sends
    the create request under the short deadline and waits for it under
    the long one; for an intermediate it then fetches the signing
    request, has the parent sign it, activates the authority and waits,
    all under the long deadline.  A run that returns a response has sent
    all of it; a run that fails has sent the first steps only, in that
    order, and nothing after the step that failed. *)
Theorem operations_follow_their_protocols (c : CloudCAS) :
  (forall req, follows (GetCertificateAuthority c req)
                       [(KGetCertificateAuthority, defaultContext)])
  /\ (forall req, follows (CreateCertificate c req) [(KCreateCertificate, defaultContext)])
  /\ (forall req, follows (RenewCertificate c req) [(KCreateCertificate, defaultContext)])
  /\ (forall req, follows (RevokeCertificate c req) [(KRevokeCertificate, defaultContext)])
  /\ (forall req, follows (CreateCertificateAuthority c req)
                          (authorityProtocol (ca_Type req))).
Proof.
  split; [| split; [| split; [| split]]].
  - intros req. unfold GetCertificateAuthority. cbv zeta.
    apply (follows_bind _ _ [_] []); [apply follows_wrapM, follows_remote | intros resp].
    destruct (len (PemCaCertificates resp) =? 0); [apply follows_fail |].
    apply (follows_bind _ _ [] []); [apply follows_lift | intros root]. apply follows_ret.
  - intros req. unfold CreateCertificate.
    destruct (cc_Template req) as [tpl |]; [| apply follows_fail].
    destruct (cc_Lifetime req =? 0); [apply follows_fail |].
    apply (follows_bind _ _ [_] []); [apply follows_createCertificate | intros [cert chain]].
    apply follows_ret.
  - intros req. unfold RenewCertificate.
    destruct (rn_Template req) as [tpl |]; [| apply follows_fail].
    destruct (rn_Lifetime req =? 0); [apply follows_fail |].
    apply (follows_bind _ _ [_] []); [apply follows_createCertificate | intros [cert chain]].
    apply follows_ret.
  - intros req. unfold RevokeCertificate.
    destruct (revocationCodeMap !! rv_ReasonCode req) as [reason |]; [| apply follows_fail].
    destruct (rv_Certificate req) as [certificate |]; [| apply follows_fail].
    destruct (FindCertificateAuthorityExtension certificate) as [ext |];
      [| apply follows_fail].
    apply (follows_bind _ _ [] _); [apply follows_lift | intros cae]. cbv zeta.
    apply (follows_bind _ _ [_] []); [apply follows_wrapM, follows_remote | intros certpb].
    apply (follows_bind _ _ [] []); [apply follows_lift | intros [cert chain]].
    apply follows_ret.
  - intros req. apply follows_CreateCertificateAuthority.
Qed.

(** X11.  With a project, a location, a template and a lifetime,
    CreateCertificateAuthority turns down, without drawing an identifier,
    touching the template or sending anything: an intermediate without a
    parent, an intermediate whose parent has no name, and a key
    specification that [createKeyVersionSpec] refuses. *)
Theorem CreateCertificateAuthority_rejections (c : CloudCAS)
        (req : CreateCertificateAuthorityRequest) (w : World) :
  project c <> "" -> location c <> "" ->
  is_Some (ca_Template req) -> ca_Lifetime req <> 0 ->
  (ca_Type req = IntermediateCA -> ca_Parent req = None ->
   CreateCertificateAuthority c req w
   = (Err (errors_New "createCertificateAuthorityRequest `parent` cannot be nil"), w))
  /\ (forall parent,
        ca_Type req = IntermediateCA -> ca_Parent req = Some parent ->
        ca_ResponseName parent = "" ->
        CreateCertificateAuthority c req w
        = (Err (errors_New "createCertificateAuthorityRequest `parent.name` cannot be empty"),
           w))
  /\ (forall e,
        (ca_Type req = IntermediateCA ->
         exists parent, ca_Parent req = Some parent /\ ca_ResponseName parent <> "") ->
        match ca_CreateKey req with
        | None => createKeyVersionSpec 0 0
        | Some k => createKeyVersionSpec (SignatureAlgorithm k) (Bits k)
        end = Err e ->
        CreateCertificateAuthority c req w
        = (Err (errors_Wrap e "createCertificateAuthorityRequest `createKey` is not valid"),
           w)).
Proof.
  intros Hp Hl [tpl Htpl] Hlifetime.
  assert (Hstart : forall rest,
             (if bool_decide (project c = "") then
                (Err (errors_New "cloudCAS `project` cannot be empty"), w)
              else if bool_decide (location c = "") then
                (Err (errors_New "cloudCAS `location` cannot be empty"), w)
              else match ca_Template req with
                   | None =>
                     (Err (errors_New "createCertificateAuthorityRequest `template` cannot be nil"), w)
                   | Some tpl =>
                     if ca_Lifetime req =? 0 then
                       (Err (errors_New "createCertificateAuthorityRequest `lifetime` cannot be 0"), w)
                     else rest tpl
                   end)
             = (rest tpl : Outcome CreateCertificateAuthorityResponse * World)).
  { intros rest. rewrite !bool_decide_eq_false_2 by assumption. rewrite Htpl.
    destruct (Z.eqb_spec (ca_Lifetime req) 0); [contradiction | reflexivity]. }
  split; [| split].
  - intros Htype Hparent. rewrite CreateCertificateAuthority_run, Hstart.
    rewrite Htype, Hparent. reflexivity.
  - intros parent Htype Hparent Hname. rewrite CreateCertificateAuthority_run, Hstart.
    rewrite Htype, Hparent. simpl. rewrite Hname. reflexivity.
  - intros e Hparent Hkey. rewrite CreateCertificateAuthority_run, Hstart.
    assert (Hchecks :
              isIntermediateCA (ca_Type req) && bool_decide (ca_Parent req = None) = false
              /\ isIntermediateCA (ca_Type req)
                 && bool_decide (ca_ResponseName <$> ca_Parent req = Some "") = false).
    { destruct (ca_Type req); try (split; reflexivity).
      destruct (Hparent eq_refl) as (parent & Hsome & Hname). rewrite Hsome. simpl.
      split; [reflexivity |].
      apply bool_decide_eq_false_2. intros [= Heq]. contradiction. }
    destruct Hchecks as [-> ->]. rewrite Hkey. reflexivity.
Qed.

(** What is left of [CreateCertificateAuthority] once its checks have
    passed. *)
Lemma CreateCertificateAuthority_valid (c : CloudCAS)
      (req : CreateCertificateAuthorityRequest) (w : World) (tpl : ptr) :
  authorityRequestValid c req -> ca_Template req = Some tpl ->
  CreateCertificateAuthority c req w
  = match wrapErr "createCertificateAuthorityRequest `createKey` is not valid"
                  match ca_CreateKey req with
                  | None => createKeyVersionSpec 0 0
                  | Some k => createKeyVersionSpec (SignatureAlgorithm k) (Bits k)
                  end with
    | Err e => (Err e, w)
    | Panic msg => (Panic msg, w)
    | Ok keySpec =>
      match authorityID req w with
      | (Err e, w1) => (Err e, w1)
      | (Panic msg, w1) => (Panic msg, w1)
      | (Ok id, w1) =>
        match CreateCertificateAuthorityExtension apiv1_CloudCAS id with
        | Err e => (Err e, w1)
        | Panic msg => (Panic msg, w1)
        | Ok ext =>
          match heap w1 !! tpl with
          | None => (Panic nilDereference, w1)
          | Some t0 =>
            let t := appendExtraExtension ext t0 in
            let w2 := {| trace := trace w1; drawn := drawn w1;
                         heap := <[tpl := t]> (heap w1) |} in
            match ca_Type req with
            | RootCA =>
              awaitAuthority c req (authorityRequest c req id keySpec t SELF_SIGNED) w2
            | IntermediateCA =>
              awaitAuthority c req (authorityRequest c req id keySpec t SUBORDINATE) w2
            | otherCAType code =>
              (Err (errors_Errorf
                      "createCertificateAuthorityRequest `type=%d' is invalid or not supported"
                      code), w2)
            end
          end
        end
      end
    end.
Proof.
  intros (Hp & Hl & _ & Hlifetime & Hparent) Htpl.
  rewrite CreateCertificateAuthority_run.
  rewrite !bool_decide_eq_false_2 by assumption. rewrite Htpl.
  destruct (Z.eqb_spec (ca_Lifetime req) 0); [contradiction |].
  assert (Hchecks :
            isIntermediateCA (ca_Type req) && bool_decide (ca_Parent req = None) = false
            /\ isIntermediateCA (ca_Type req)
               && bool_decide (ca_ResponseName <$> ca_Parent req = Some "") = false).
  { destruct (ca_Type req); try (split; reflexivity).
    destruct (Hparent eq_refl) as (parent & Hsome & Hname). rewrite Hsome. simpl.
    split; [reflexivity |].
    apply bool_decide_eq_false_2. intros [= Heq]. contradiction. }
  destruct Hchecks as [-> ->]. reflexivity.
Qed.

(** X12.  A request for an authority of a type that is neither root nor
    intermediate fails with the error that names the type, and nothing
    is sent; but the checks, the key specification and the identifier
    come first, so by then the template carries the correlation extension
    of the authority that was not created. *)
Theorem CreateCertificateAuthority_unsupported_type (c : CloudCAS)
        (req : CreateCertificateAuthorityRequest) (w w1 : World) (tpl : ptr)
        (t0 : Certificate) (code : Z) (keySpec : pb_KeyVersionSpec)
        (id : string) (ext : Extension) :
  authorityRequestValid c req ->
  ca_Template req = Some tpl -> heap w !! tpl = Some t0 ->
  ca_Type req = otherCAType code ->
  match ca_CreateKey req with
  | None => createKeyVersionSpec 0 0
  | Some k => createKeyVersionSpec (SignatureAlgorithm k) (Bits k)
  end = Ok keySpec ->
  authorityID req w = (Ok id, w1) ->
  CreateCertificateAuthorityExtension apiv1_CloudCAS id = Ok ext ->
  CreateCertificateAuthority c req w
  = (Err (errors_Errorf
            "createCertificateAuthorityRequest `type=%d' is invalid or not supported" code),
     {| trace := trace w; drawn := drawn w1;
        heap := <[tpl := appendExtraExtension ext t0]> (heap w) |}).
Proof.
  intros Hvalid Htpl Ht0 Htype Hkey Hid Hext.
  rewrite (CreateCertificateAuthority_valid c req w tpl) by assumption.
  destruct (authorityID_world req w) as [Htrace Hheap]. rewrite Hid in Htrace, Hheap.
  simpl in Htrace, Hheap.
  rewrite Hkey, Hid. cbn [wrapErr]. rewrite Hext, Hheap, Ht0, Htype.
  cbv zeta. rewrite Htrace. reflexivity.
Qed.

Ltac keeps_the_heap :=
  repeat first
         [ apply keepsHeap_bind; [| intros ?]
         | apply keepsHeap_wrapM
         | apply keepsHeap_remote
         | apply keepsHeap_lift
         | apply keepsHeap_ret
         | apply keepsHeap_createCertificateID
         | apply keepsHeap_load ].

Lemma keepsHeap_awaitAuthority (c : CloudCAS) (req : CreateCertificateAuthorityRequest)
      (pbReq : pb_CreateCertificateAuthorityRequest) :
  keepsHeap (awaitAuthority c req pbReq).
Proof.
  unfold awaitAuthority. keeps_the_heap.
  - destruct (isIntermediateCA (ca_Type req));
      [apply keepsHeap_signIntermediateCA | keeps_the_heap].
  - destruct (len _ =? 0); keeps_the_heap.
Qed.

Lemma awaitAuthority_first (c : CloudCAS) (req : CreateCertificateAuthorityRequest)
      (pbReq : pb_CreateCertificateAuthorityRequest) (w : World) :
  exists rest,
    trace (snd (awaitAuthority c req pbReq w))
    = trace w ++ CallCreateCertificateAuthority defaultContext pbReq :: rest.
Proof.
  unfold awaitAuthority. unfold mbind at 1, M_bind, wrapM at 1, remote at 1.
  destruct (client_CreateCertificateAuthority (client c) (trace w) pbReq) as [resp | e | msg];
    cbn [wrapErr snd trace]; [| exists []; reflexivity ..].
  match goal with
  | |- context [snd (?k ?w1)] =>
    assert (Hk : exists protocol, follows k protocol)
  end.
  { exists ([(KWait, defaultInitiatorContext)]
              ++ (if isIntermediateCA (ca_Type req) then handshakeProtocol else []) ++ []).
    apply follows_bind; [apply follows_wrapM, follows_remote | intros ca].
    apply follows_bind.
    - destruct (isIntermediateCA (ca_Type req));
        [apply follows_signIntermediateCA | apply follows_ret].
    - intros ca'. apply follows_decodeAuthority. }
  destruct Hk as [protocol Hk].
  match goal with
  | |- context [snd (?k ?w1)] =>
    destruct (follows_extends k protocol Hk w1) as [sent Hsent]
  end.
  exists sent. rewrite Hsent. simpl. rewrite <- app_assoc. reflexivity.
Qed.

(** X13.  Whenever CreateCertificateAuthority sends anything, the first
    request is the create request, under the short deadline, for the
    parent [projects/{project}/locations/{location}].  The identifier of
    the authority is the normalized name of the request, or, when the
    request has no name, an identifier drawn for it; the template has
    been given the correlation extension that carries that identifier,
    and the request is made from the template so marked. *)
Theorem CreateCertificateAuthority_first_request (c : CloudCAS)
        (req : CreateCertificateAuthorityRequest) (w : World) :
  trace (snd (CreateCertificateAuthority c req w)) <> trace w ->
  exists tpl t0 keySpec id ext rest,
    ca_Template req = Some tpl /\ heap w !! tpl = Some t0
    /\ (if bool_decide (ca_Name req = "")
        then uuid_NewRandomFromReader (drawn w) = Ok id
        else id = normalizeCertificateAuthorityName (ca_Name req))
    /\ CreateCertificateAuthorityExtension apiv1_CloudCAS id = Ok ext
    /\ heap (snd (CreateCertificateAuthority c req w)) !! tpl
       = Some (appendExtraExtension ext t0)
    /\ trace (snd (CreateCertificateAuthority c req w))
       = trace w
         ++ CallCreateCertificateAuthority defaultContext
              (authorityRequest c req id keySpec (appendExtraExtension ext t0)
                 (if isIntermediateCA (ca_Type req) then SUBORDINATE else SELF_SIGNED))
            :: rest
    /\ ccar_Parent (authorityRequest c req id keySpec (appendExtraExtension ext t0)
                      (if isIntermediateCA (ca_Type req) then SUBORDINATE else SELF_SIGNED))
       = "projects/" +:+ project c +:+ "/locations/" +:+ location c.
Proof.
  intros Hsent.
  destruct (ca_Template req) as [tpl |] eqn:Htpl;
    [| exfalso; apply Hsent; rewrite CreateCertificateAuthority_run, Htpl;
       repeat (destruct (bool_decide _)); reflexivity].
  destruct (CreateCertificateAuthority_submitted c req tpl w Htpl Hsent)
    as (t0 & id' & ext' & Ht0 & _ & Hheap').
  revert Hsent Hheap'. rewrite CreateCertificateAuthority_run, Htpl.
  repeat match goal with
         | |- context [if ?b then (Err _, w) else _] =>
           destruct b; [intros Hsent; exfalso; apply Hsent; reflexivity |]
         end.
  destruct (wrapErr _ _) as [keySpec | e | msg];
    [| intros Hsent; exfalso; apply Hsent; reflexivity ..].
  rewrite authorityID_run.
  assert (Hnaming : forall (out : Outcome string) w1,
             (if bool_decide (ca_Name req = "")
              then (wrapErr "error creating certificate id"
                            (uuid_NewRandomFromReader (drawn w)),
                    {| trace := trace w; drawn := S (drawn w); heap := heap w |})
              else (Ok (normalizeCertificateAuthorityName (ca_Name req)), w)) = (out, w1) ->
             trace w1 = trace w /\ heap w1 = heap w
             /\ forall id, out = Ok id ->
                           if bool_decide (ca_Name req = "")
                           then uuid_NewRandomFromReader (drawn w) = Ok id
                           else id = normalizeCertificateAuthorityName (ca_Name req)).
  { intros out w1. destruct (bool_decide (ca_Name req = "")).
    - intros [= <- <-]. repeat split.
      intros id. destruct (uuid_NewRandomFromReader (drawn w)); simpl; congruence.
    - intros [= <- <-]. repeat split. congruence. }
  destruct (if bool_decide (ca_Name req = "") then _ else _) as [out w1] eqn:Hid.
  destruct (Hnaming out w1 eq_refl) as (Htrace1 & Hheap1 & Hout).
  destruct out as [id | e | msg];
    [| intros Hsent; exfalso; apply Hsent; assumption ..].
  destruct (CreateCertificateAuthorityExtension apiv1_CloudCAS id) as [ext | e | msg] eqn:Hext;
    [| intros Hsent; exfalso; apply Hsent; assumption ..].
  rewrite Hheap1, Ht0. cbv zeta.
  assert (Hlt : (tpl < length (heap w))%nat) by (eapply lookup_lt_Some; eassumption).
  destruct (ca_Type req) eqn:Htype; cbn [isIntermediateCA].
  - intros _ Hheap'.
    destruct (awaitAuthority_first c req
                (authorityRequest c req id keySpec (appendExtraExtension ext t0) SELF_SIGNED)
                {| trace := trace w1; drawn := drawn w1;
                   heap := <[tpl := appendExtraExtension ext t0]> (heap w) |})
      as [rest Hrest].
    exists tpl, t0, keySpec, id, ext, rest.
    split; [first [reflexivity | assumption] |].
    split; [first [reflexivity | assumption] |].
    split; [exact (Hout id eq_refl) |].
    split; [first [reflexivity | assumption] |].
    split; [| split; [| reflexivity]].
    + rewrite (keepsHeap_awaitAuthority c req
                 (authorityRequest c req id keySpec (appendExtraExtension ext t0) SELF_SIGNED)).
      simpl. apply list_lookup_insert_eq. assumption.
    + rewrite Hrest. simpl. rewrite Htrace1. reflexivity.
  - intros _ Hheap'.
    destruct (awaitAuthority_first c req
                (authorityRequest c req id keySpec (appendExtraExtension ext t0) SUBORDINATE)
                {| trace := trace w1; drawn := drawn w1;
                   heap := <[tpl := appendExtraExtension ext t0]> (heap w) |})
      as [rest Hrest].
    exists tpl, t0, keySpec, id, ext, rest.
    split; [first [reflexivity | assumption] |].
    split; [first [reflexivity | assumption] |].
    split; [exact (Hout id eq_refl) |].
    split; [first [reflexivity | assumption] |].
    split; [| split; [| reflexivity]].
    + rewrite (keepsHeap_awaitAuthority c req
                 (authorityRequest c req id keySpec (appendExtraExtension ext t0) SUBORDINATE)).
      simpl. apply list_lookup_insert_eq. assumption.
    + rewrite Hrest. simpl. rewrite Htrace1. reflexivity.
  - intros Hsent. exfalso. apply Hsent. assumption.
Qed.

(** X14.  When a root authority has been created and the wait returns
    it, the response names the authority as the service does, takes the
    certificate from the first element of its chain and the chain from
    the elements after it, in order; an authority that comes back without
    a chain is an error, although it has been created.  Two requests have
    been sent: the creation and the wait. *)
Theorem root_authority_response (c : CloudCAS) (req : CreateCertificateAuthorityRequest)
        (w w1 : World) (tpl : ptr) (t0 : Certificate) (keySpec : pb_KeyVersionSpec)
        (id : string) (ext : Extension) (op : Operation) (ca : pb_CertificateAuthority) :
  authorityRequestValid c req ->
  ca_Template req = Some tpl -> heap w !! tpl = Some t0 ->
  ca_Type req = RootCA ->
  match ca_CreateKey req with
  | None => createKeyVersionSpec 0 0
  | Some k => createKeyVersionSpec (SignatureAlgorithm k) (Bits k)
  end = Ok keySpec ->
  authorityID req w = (Ok id, w1) ->
  CreateCertificateAuthorityExtension apiv1_CloudCAS id = Ok ext ->
  let pbReq := authorityRequest c req id keySpec (appendExtraExtension ext t0) SELF_SIGNED in
  client_CreateCertificateAuthority (client c) (trace w) pbReq = Ok op ->
  Wait op defaultInitiatorContext = Ok ca ->
  CreateCertificateAuthority c req w
  = (match PemCaCertificates ca with
     | [] =>
       Err (errors_New "cloudCAS CreateCertificateAuthority failed: PemCaCertificates is empty")
     | first :: rest =>
       cert ← parseCertificate first;
       chain ← mapM parseCertificate rest;
       Ok {| ca_ResponseName := pba_Name ca;
             ca_Certificate := cert;
             ca_CertificateChain := chain |}
     end,
     {| trace := trace w ++ [CallCreateCertificateAuthority defaultContext pbReq;
                             OperationWait defaultInitiatorContext];
        drawn := drawn w1;
        heap := <[tpl := appendExtraExtension ext t0]> (heap w) |}).
Proof.
  intros Hvalid Htpl Ht0 Htype Hkey Hid Hext pbReq Hop Hwait.
  rewrite (CreateCertificateAuthority_valid c req w tpl) by assumption.
  destruct (authorityID_world req w) as [Htrace Hheap]. rewrite Hid in Htrace, Hheap.
  simpl in Htrace, Hheap.
  rewrite Hkey, Hid. cbn [wrapErr]. rewrite Hext, Hheap, Ht0, Htype. cbv zeta.
  fold pbReq. unfold awaitAuthority. rewrite Htype. cbn [isIntermediateCA].
  unfold mbind at 1, M_bind, wrapM at 1, remote at 1. cbn [trace drawn heap].
  rewrite Htrace, Hop. cbn [wrapErr].
  unfold mbind at 1, M_bind, wrapM at 1, remote at 1. cbn [trace drawn heap].
  rewrite Hwait. cbn [wrapErr].
  unfold mbind at 1, M_bind. cbn [mret M_ret].
  rewrite <- app_assoc. cbn [app].
  destruct (PemCaCertificates ca) as [| first rest]; [reflexivity |].
  unfold len. cbn [length]. destruct (Z.eqb_spec (Z.of_nat (S (length rest))) 0); [lia |].
  unfold mbind, M_bind, Outcome_bind, lift, index.
  change (0 <? 0) with false. cbv iota.
  change ((first :: rest) !! Z.to_nat 0) with (Some first).
  change (drop 1 (first :: rest)) with rest. cbv iota.
  destruct (parseCertificate first) as [cert | e | msg]; [| reflexivity ..].
  destruct (mapM parseCertificate rest) as [chain | e | msg]; reflexivity.
Qed.

(** X15.  The subordinate-signing handshake.  The signing request
    fetched for the new authority is the one submitted, under a freshly
    drawn identifier, to the parent named in the request; the
    certificate and the chain the parent answers with are the ones the
    authority is activated with; and the authority returned is the one
    the wait for the activation returns. *)
Theorem subordinate_signing_handshake (c : CloudCAS) (name : string)
        (req : CreateCertificateAuthorityRequest) (w : World)
        (parent : CreateCertificateAuthorityResponse) (id : string)
        (csr : pb_FetchCertificateAuthorityCsrResponse) (sign : pb_Certificate)
        (op : Operation) :
  ca_Parent req = Some parent ->
  uuid_NewRandomFromReader (drawn w) = Ok id ->
  let fetch := CallFetchCertificateAuthorityCsr defaultInitiatorContext {| fcr_Name := name |} in
  let signReq :=
    {| ccr_Parent := ca_ResponseName parent;
       ccr_CertificateId := id;
       ccr_Certificate :=
         {| CertificateConfig := Some (Certificate_PemCsr (fcr_PemCsr csr));
            pbc_Lifetime := Some (ca_Lifetime req);
            pbc_Labels := ∅;
            PemCertificate := "";
            PemCertificateChain := [] |};
       ccr_RequestId := ca_RequestID req |} in
  let activate :=
    {| acr_Name := name;
       acr_PemCaCertificate := PemCertificate sign;
       acr_PemIssuerChain := PemCertificateChain sign;
       acr_RequestId := ca_RequestID req |} in
  client_FetchCertificateAuthorityCsr (client c) (trace w) {| fcr_Name := name |} = Ok csr ->
  client_CreateCertificate (client c) (trace w ++ [fetch]) signReq = Ok sign ->
  client_ActivateCertificateAuthority
    (client c)
    (trace w ++ [fetch; CallCreateCertificate defaultInitiatorContext signReq])
    activate = Ok op ->
  signIntermediateCA c name req w
  = (wrapErr "cloudCAS ActivateCertificateAuthority failed"
             (Wait op defaultInitiatorContext),
     {| trace := trace w ++ [fetch;
                             CallCreateCertificate defaultInitiatorContext signReq;
                             CallActivateCertificateAuthority defaultInitiatorContext activate;
                             OperationWait defaultInitiatorContext];
        drawn := S (drawn w); heap := heap w |}).
Proof.
  intros Hparent Hid fetch signReq activate Hcsr Hsign Hop.
  unfold signIntermediateCA.
  unfold mbind at 1, M_bind, createCertificateID. rewrite Hid. cbn [wrapErr].
  unfold mbind at 1, M_bind, wrapM at 1, remote at 1. cbn [trace drawn heap].
  rewrite Hcsr. cbn [wrapErr].
  unfold mbind at 1, M_bind, parentName. rewrite Hparent. cbn [mret M_ret].
  unfold mbind at 1, M_bind, wrapM at 1, remote at 1. cbn [trace drawn heap].
  fold fetch. fold signReq. rewrite Hsign. cbn [wrapErr].
  unfold mbind at 1, M_bind, wrapM at 1, remote at 1. cbn [trace drawn heap].
  fold activate. rewrite <- app_assoc. cbn [app]. rewrite Hop. cbn [wrapErr].
  unfold wrapM, remote. cbn [trace drawn heap].
  rewrite <- !app_assoc. reflexivity.
Qed.
End Protocols.

(** ** The further properties on the test double *)

Section MoreOnTheTestDouble.
#[local] Existing Instance Stub.externals.

Lemma New_invariant_witness :
  project Stub.issuing <> "" /\ location Stub.issuing <> ""
  /\ isResourceName (certificateAuthority Stub.issuing).
Proof.
  destruct (New_invariant Stub.newClient Stub.options Stub.issuing eq_refl)
    as (Hp & Hl & _ & _ & _ & Hname).
  exact (conj Hp (conj Hl (Hname eq_refl))).
Defined.

Lemma getCertificateAndChain_ignores_last_witness :
  getCertificateAndChain
    (Stub.pbCertificate (Stub.pem "leaf") [Stub.pem "intermediate"; "not a certificate"])
  = Ok (Stub.certificate "leaf", [Stub.certificate "intermediate"]).
Proof.
  exact (getCertificateAndChain_ignores_last
           (Stub.pbCertificate (Stub.pem "leaf")
                               [Stub.pem "intermediate"; "not a certificate"])
           [Stub.pem "intermediate"] "not a certificate" eq_refl).
Defined.

Lemma RevokeCertificate_requires_correlation_witness :
  RevokeCertificate Stub.issuing
    {| rv_Certificate := Some StubMore.foreign; rv_ReasonCode := 1; rv_RequestID := "" |}
    Stub.world
  = (Err (errors_New "error revoking certificate: certificate authority extension was not found"),
     Stub.world).
Proof.
  refine (proj2 (RevokeCertificate_requires_correlation Stub.issuing
                   {| rv_Certificate := Some StubMore.foreign; rv_ReasonCode := 1;
                      rv_RequestID := "" |} Stub.world _)
                StubMore.foreign eq_refl eq_refl).
  exists KEY_COMPROMISE. reflexivity.
Defined.

Lemma RevokeCertificate_addresses_by_identifier_witness :
  RevokeCertificate Stub.issuing
    {| rv_Certificate := Some Stub.issued; rv_ReasonCode := 1; rv_RequestID := "r1" |}
    Stub.world
  = (Ok {| rv_ResponseCertificate := Stub.certificate "leaf";
           rv_CertificateChain := [Stub.certificate "intermediate"] |},
     {| trace := [CallRevokeCertificate defaultContext
                    {| rcr_Name := "projects/p/locations/l/certificateAuthorities/ca/certificates/1234";
                       rcr_Reason := KEY_COMPROMISE; rcr_RequestId := "r1" |}];
        drawn := 0; heap := [Stub.template] |}).
Proof.
  exact (RevokeCertificate_addresses_by_identifier Stub.issuing Stub.world
           {| rv_Certificate := Some Stub.issued; rv_ReasonCode := 1; rv_RequestID := "r1" |}
           StubMore.answeredCertificate KEY_COMPROMISE Stub.issued (Stub.casExtension "1234")
           {| cae_Type := 1; CertificateID := "1234" |}
           (Stub.certificate "leaf") [Stub.pem "intermediate"] (Stub.pem "authority")
           [Stub.certificate "intermediate"]
           eq_refl eq_refl eq_refl eq_refl eq_refl eq_refl eq_refl eq_refl).
Defined.

Lemma failed_issuance_witness :
  CreateCertificate StubMore.down
    {| cc_Template := Some 0%nat; cc_Lifetime := 1; cc_RequestID := "" |} StubMore.accumulated
  = (Err (errors_Wrap StubMore.unavailable "cloudCAS CreateCertificate failed"),
     {| trace := [CallCreateCertificate defaultContext
                    (issueRequest StubMore.down "uuid-0" StubMore.reissued 1 "")];
        drawn := 1;
        heap := [StubMore.reissued] |})
  /\ CreateCertificate StubMore.dry
       {| cc_Template := Some 0%nat; cc_Lifetime := 1; cc_RequestID := "" |} StubMore.dryWorld
     = (Err (errors_Wrap (errors_New "unexpected EOF") "error creating certificate id"),
        {| trace := []; drawn := 1; heap := [StubMore.lessFirst] |}).
Proof.
  split.
  - refine (proj1 (proj2 (failed_issuance StubMore.down StubMore.accumulated 0%nat
                            Stub.rootTemplate 1 "" StubMore.unavailable _ eq_refl)
                         "uuid-0" (Stub.casExtension "uuid-0") StubMore.reissued
                         eq_refl eq_refl eq_refl eq_refl)).
    discriminate.
  - refine (proj1 (proj1 (failed_issuance StubMore.dry StubMore.dryWorld 0%nat
                            Stub.rootTemplate 1 "" (errors_New "unexpected EOF") _ eq_refl)
                         eq_refl)).
    discriminate.
Defined.

Lemma StubMore_valid (req : CreateCertificateAuthorityRequest) :
  ca_Template req = Some 0%nat -> ca_Lifetime req = 1 ->
  (ca_Type req = IntermediateCA -> ca_Parent req = Some StubMore.parent) ->
  authorityRequestValid Stub.issuing req.
Proof.
  intros Htpl Hlifetime Hparent. unfold authorityRequestValid.
  split; [discriminate |]. split; [discriminate |].
  split; [rewrite Htpl; eauto |]. split; [rewrite Hlifetime; discriminate |].
  intros Htype. exists StubMore.parent. split; [auto | discriminate].
Defined.

Lemma CreateCertificateAuthority_rejections_witness :
  CreateCertificateAuthority Stub.issuing StubMore.orphanRequest Stub.world
  = (Err (errors_New "createCertificateAuthorityRequest `parent` cannot be nil"), Stub.world).
Proof.
  refine (proj1 (CreateCertificateAuthority_rejections Stub.issuing StubMore.orphanRequest
                   Stub.world _ _ _ _) eq_refl eq_refl).
  - discriminate.
  - discriminate.
  - exists 0%nat. reflexivity.
  - discriminate.
Defined.

Lemma CreateCertificateAuthority_unsupported_type_witness :
  CreateCertificateAuthority Stub.issuing StubMore.oddRequest Stub.world
  = (Err (errors_Errorf
            "createCertificateAuthorityRequest `type=%d' is invalid or not supported" 7),
     {| trace := []; drawn := 0; heap := [StubMore.marked] |}).
Proof.
  refine (CreateCertificateAuthority_unsupported_type Stub.issuing StubMore.oddRequest
            Stub.world Stub.world 0%nat Stub.template 7 (0, 0) "My-CA"
            (Stub.casExtension "My-CA") _ eq_refl eq_refl eq_refl eq_refl eq_refl eq_refl).
  apply StubMore_valid; [reflexivity | reflexivity | discriminate].
Defined.

Lemma CreateCertificateAuthority_first_request_witness :
  exists pbReq rest,
    trace (snd (CreateCertificateAuthority Stub.issuing Stub.rootRequest Stub.world))
    = CallCreateCertificateAuthority defaultContext pbReq :: rest
    /\ ccar_CertificateAuthorityId pbReq = "My-CA"
    /\ ccar_Parent pbReq = "projects/p/locations/l".
Proof.
  destruct (CreateCertificateAuthority_first_request Stub.issuing Stub.rootRequest Stub.world)
    as (tpl & t0 & keySpec & id & ext & rest & _ & _ & Hid & _ & _ & Htrace & Hparent).
  - discriminate.
  - eexists _, rest. split; [exact Htrace |]. split; [| exact Hparent].
    simpl. exact Hid.
Defined.

Lemma root_authority_response_witness :
  CreateCertificateAuthority Stub.issuing Stub.rootRequest Stub.world
  = (Ok {| ca_ResponseName := Stub.authorityName;
           ca_Certificate := Stub.certificate "intermediate";
           ca_CertificateChain := [Stub.certificate "root"] |},
     {| trace := [CallCreateCertificateAuthority defaultContext
                    (authorityRequest Stub.issuing Stub.rootRequest "My-CA" (0, 0)
                                      StubMore.marked SELF_SIGNED);
                  OperationWait defaultInitiatorContext];
        drawn := 0; heap := [StubMore.marked] |}).
Proof.
  refine (root_authority_response Stub.issuing Stub.rootRequest Stub.world Stub.world 0%nat
            Stub.template (0, 0) "My-CA" (Stub.casExtension "My-CA")
            {| Wait := fun _ => Ok StubMore.answeredAuthority |} StubMore.answeredAuthority
            _ eq_refl eq_refl eq_refl eq_refl eq_refl eq_refl eq_refl eq_refl).
  apply StubMore_valid; [reflexivity | reflexivity | discriminate].
Defined.

Lemma subordinate_signing_handshake_witness :
  signIntermediateCA Stub.issuing "projects/p/locations/l/certificateAuthorities/My-CA"
                     StubMore.intermediateRequest Stub.world
  = (Ok StubMore.answeredAuthority,
     {| trace :=
          [CallFetchCertificateAuthorityCsr defaultInitiatorContext
             {| fcr_Name := "projects/p/locations/l/certificateAuthorities/My-CA" |};
           CallCreateCertificate defaultInitiatorContext
             {| ccr_Parent := "projects/p/locations/l/certificateAuthorities/root";
                ccr_CertificateId := "uuid-0";
                ccr_Certificate :=
                  {| CertificateConfig := Some (Certificate_PemCsr (Stub.pem "csr"));
                     pbc_Lifetime := Some 1; pbc_Labels := ∅;
                     PemCertificate := ""; PemCertificateChain := [] |};
                ccr_RequestId := "" |};
           CallActivateCertificateAuthority defaultInitiatorContext
             {| acr_Name := "projects/p/locations/l/certificateAuthorities/My-CA";
                acr_PemCaCertificate := Stub.pem "leaf";
                acr_PemIssuerChain := [Stub.pem "intermediate"; Stub.pem "authority"];
                acr_RequestId := "" |};
           OperationWait defaultInitiatorContext];
        drawn := 1; heap := [Stub.template] |}).
Proof.
  exact (subordinate_signing_handshake Stub.issuing
           "projects/p/locations/l/certificateAuthorities/My-CA"
           StubMore.intermediateRequest Stub.world StubMore.parent "uuid-0"
           {| fcr_PemCsr := Stub.pem "csr" |} StubMore.answeredCertificate
           {| Wait := fun _ => Ok StubMore.answeredAuthority |}
           eq_refl eq_refl eq_refl eq_refl eq_refl).
Defined.
End MoreOnTheTestDouble.
